(** * PyGit: a shallow embedding of [main.py] and its verified properties

    The development follows the source file top-down: the Python values the
    program manipulates, the three libraries it calls ([hashlib], [zlib],
    [json]), the object model ([GitObject], [Blob], [Tree], [Commit]), and
    the repository operations ([store_object], [load_index], [save_index],
    [add_file], [add_directory], [add_path], [create_tree_from_index],
    [commit], [gc]).

    Representation choices.
    - A Python [bytes] value is a [list byte].
    - A Python [str] is a [string] holding its UTF-8 encoding, so [encode]
      is the identity on bytes and [decode] checks UTF-8 well-formedness.
      [len], unpacking and slicing of a [str] count code points (bytes that
      are not UTF-8 continuation bytes); comparison of two [str] is
      byte-wise, which is code point order.
    - A Python [dict] is an association list in insertion order.
    - A directory of the file system is a [gmap] from names to entries.
    - Exceptions are values of [exn] in an error monad; [print] is dropped. *)

From Stdlib Require Import ZArith List Strings.String Strings.Ascii Strings.Byte DecimalString
  DecimalZ DecimalPos Lia.
From stdpp Require Import base option list gmap strings sorting.

(** ** Exceptions and the error monad

    [TypeError] to [IsADirectoryError] are the built-in exceptions the
    statements of [main.py] can raise. [CorruptObject] and [InvalidPath] are
    the error names of the specification; no statement of [main.py] raises
    them. *)

Inductive exn : Type :=
  | TypeError
  | ValueError
  | AttributeError
  | UnicodeDecodeError
  | ZlibError
  | FileNotFoundError
  | FileExistsError
  | IsADirectoryError
  | CorruptObject
  | InvalidPath.

Inductive result (A : Type) : Type :=
  | Ok (a : A)
  | Raise (e : exn).
Arguments Ok {A} a.
Arguments Raise {A} e.

#[global] Instance result_ret : MRet result := fun A a => Ok a.
#[global] Instance result_bind : MBind result := fun A B k r =>
  match r with
  | Ok a => k a
  | Raise e => Raise e
  end.

Definition is_ok {A} (r : result A) : bool :=
  match r with Ok _ => true | Raise _ => false end.

(** ** Bytes *)

Definition byte_val (b : byte) : Z := Z.of_N (Byte.to_N b).

Definition byte_of_Z (z : Z) : byte :=
  match Byte.of_N (Z.to_N (z mod 256)) with
  | Some b => b
  | None => x00
  end.

#[global] Instance byte_eq_dec : EqDecision byte := Byte.byte_eq_dec.

(** ** hashlib.sha1

    SHA-1 of FIPS 180-4 on 32-bit words held in [Z], each operation
    reduced modulo [2^32]. *)

Module SHA1.
#[local] Open Scope Z_scope.

Definition w32 (x : Z) : Z := x mod 4294967296.
Definition add32 (x y : Z) : Z := w32 (x + y).
Definition rotl (n : Z) (x : Z) : Z :=
  w32 (Z.lor (Z.shiftl x n) (Z.shiftr x (32 - n))).
Definition not32 (x : Z) : Z := 4294967295 - x.

(** Big-endian bytes of a non-negative number, [n] of them. *)
Fixpoint be_bytes (n : nat) (x : Z) : list Z :=
  match n with
  | O => []
  | S n' => be_bytes n' (x / 256) ++ [x mod 256]
  end.

(** Message padding: a one bit, zeros up to 56 modulo 64 bytes, then the bit
    length on 8 bytes. *)
Definition pad (msg : list Z) : list Z :=
  let len := Z.of_nat (length msg) in
  let zeros := Z.to_nat ((55 - len) mod 64) in
  msg ++ [128] ++ repeat 0 zeros ++ be_bytes 8 (8 * len).

Fixpoint words_of (n : nat) (bs : list Z) : list Z :=
  match n with
  | O => []
  | S n' =>
    match bs with
    | b0 :: b1 :: b2 :: b3 :: rest =>
      (((b0 * 256 + b1) * 256 + b2) * 256 + b3) :: words_of n' rest
    | _ => []
    end
  end.

(** The message schedule, newest word first: [rev_w] holds w[t-1], w[t-2], ... *)
Fixpoint extend (n : nat) (rev_w : list Z) : list Z :=
  match n with
  | O => rev_w
  | S n' =>
    let at_ i := nth i rev_w 0 in
    let w := rotl 1 (Z.lxor (Z.lxor (at_ 2%nat) (at_ 7%nat))
                            (Z.lxor (at_ 13%nat) (at_ 15%nat))) in
    extend n' (w :: rev_w)
  end.

Definition schedule (block : list Z) : list Z :=
  rev (extend 64 (rev (words_of 16 block))).

Definition state : Type := Z * Z * Z * Z * Z.

Definition round (t : nat) (s : state) (w : Z) : state :=
  let '(a, b, c, d, e) := s in
  let '(f, k) :=
    if (t <? 20)%nat then
      (Z.lor (Z.land b c) (Z.land (not32 b) d), 1518500249)
    else if (t <? 40)%nat then
      (Z.lxor (Z.lxor b c) d, 1859775393)
    else if (t <? 60)%nat then
      (Z.lor (Z.lor (Z.land b c) (Z.land b d)) (Z.land c d), 2400959708)
    else
      (Z.lxor (Z.lxor b c) d, 3395469782) in
  let temp := add32 (add32 (add32 (add32 (rotl 5 a) f) e) k) w in
  (temp, a, rotl 30 b, c, d).

Fixpoint rounds (t : nat) (ws : list Z) (s : state) : state :=
  match ws with
  | [] => s
  | w :: ws' => rounds (S t) ws' (round t s w)
  end.

Definition compress_block (h : state) (block : list Z) : state :=
  let '(h0, h1, h2, h3, h4) := h in
  let '(a, b, c, d, e) := rounds 0 (schedule block) h in
  (add32 h0 a, add32 h1 b, add32 h2 c, add32 h3 d, add32 h4 e).

Fixpoint blocks (n : nat) (h : state) (bs : list Z) : state :=
  match n with
  | O => h
  | S n' => blocks n' (compress_block h (firstn 64 bs)) (skipn 64 bs)
  end.

Definition init : state :=
  (1732584193, 4023233417, 2562383102, 271733878, 3285377520).

Definition digest (msg : list byte) : state :=
  let p := pad (map byte_val msg) in
  blocks (length p / 64) init p.

Definition hex_digit (x : Z) : ascii :=
  ascii_of_N (Z.to_N (if x <? 10 then 48 + x else 87 + x)).

Definition nibble (w : Z) (i : Z) : ascii :=
  hex_digit (Z.land (Z.shiftr w (4 * i)) 15).

Definition hex32 (w : Z) (tail : string) : string :=
  String (nibble w 7) (String (nibble w 6) (String (nibble w 5)
  (String (nibble w 4) (String (nibble w 3) (String (nibble w 2)
  (String (nibble w 1) (String (nibble w 0) tail))))))).

(** [hashlib.sha1(data).hexdigest()] *)
Definition hexdigest (msg : list byte) : string :=
  let '(h0, h1, h2, h3, h4) := digest msg in
  hex32 h0 (hex32 h1 (hex32 h2 (hex32 h3 (hex32 h4 "")))).

End SHA1.

(** ** Python [str] and [bytes] primitives *)

Definition NUL : ascii := "000"%char.

(** A UTF-8 continuation byte, [10xxxxxx]. *)
Definition is_cont (c : ascii) : bool :=
  match c with Ascii _ _ _ _ _ _ b6 b7 => b7 && negb b6 end.

(** [len(s)]: the number of code points. *)
Fixpoint py_len (s : string) : nat :=
  match s with
  | EmptyString => 0
  | String c r => (if is_cont c then 0 else 1) + py_len r
  end.

(** [(s[:n], s[n:])], cutting before code point [n]. *)
Fixpoint str_split_at (n : nat) (s : string) : string * string :=
  match s with
  | EmptyString => ("", "")
  | String c r =>
    if is_cont c then
      let '(a, b) := str_split_at n r in (String c a, b)
    else
      match n with
      | O => ("", s)
      | S n' => let '(a, b) := str_split_at n' r in (String c a, b)
      end
  end.

Definition str_take (n : nat) (s : string) : string := fst (str_split_at n s).
Definition str_drop (n : nat) (s : string) : string := snd (str_split_at n s).

(** [a, b = s]: unpacking a string into two names needs exactly two code
    points. *)
Definition unpack2 (s : string) : result (string * string) :=
  if (py_len s =? 2)%nat then Ok (str_split_at 1 s) else Raise ValueError.

(** [s.split(sep)] for a one-character separator: one more part than there
    are separators, empty parts kept. *)
Fixpoint split (sep : ascii) (s : string) : list string :=
  match s with
  | EmptyString => [""]
  | String c r =>
    if Ascii.eqb c sep then "" :: split sep r
    else
      match split sep r with
      | h :: t => String c h :: t
      | [] => [String c ""]
      end
  end.

(** [str(n)] for a length. *)
Definition str_of_nat (n : nat) : string :=
  NilEmpty.string_of_uint (Nat.to_uint n).

(** [d.find(bytes([b]))]: the first index of [b], or [-1]. *)
Fixpoint find_byte (b : byte) (d : list byte) : option nat :=
  match d with
  | [] => None
  | x :: r => if Byte.eqb x b then Some 0%nat else S <$> find_byte b r
  end.

Definition bytes_find (b : byte) (d : list byte) : Z :=
  match find_byte b d with
  | Some i => Z.of_nat i
  | None => (-1)%Z
  end.

(** A slice bound as Python normalises it: a negative bound counts from the
    end, and the result is clamped to [0, len]. *)
Definition slice_bound {A} (d : list A) (k : Z) : nat :=
  let len := Z.of_nat (length d) in
  Z.to_nat (Z.min len (if (k <? 0)%Z then Z.max 0 (len + k) else k)).

(** [d[:k]] and [d[k:]] *)
Definition slice_to {A} (d : list A) (k : Z) : list A := take (slice_bound d k) d.
Definition slice_from {A} (d : list A) (k : Z) : list A := drop (slice_bound d k) d.

(** *** UTF-8

    [bytes.decode()] accepts exactly the well-formed byte sequences of the
    Unicode standard (no overlong forms, no surrogates, nothing above
    U+10FFFF). The recogniser below reads one byte at a time. *)

Inductive utf8_state : Type :=
  | UStart
  | UCont (more : nat) (lo hi : Z).

Definition utf8_step (st : utf8_state) (b : Z) : option utf8_state :=
  match st with
  | UStart =>
    if (b <? 128)%Z then Some UStart
    else if (194 <=? b)%Z && (b <=? 223)%Z then Some (UCont 0 128 191)
    else if (b =? 224)%Z then Some (UCont 1 160 191)
    else if (b =? 237)%Z then Some (UCont 1 128 159)
    else if (225 <=? b)%Z && (b <=? 239)%Z then Some (UCont 1 128 191)
    else if (b =? 240)%Z then Some (UCont 2 144 191)
    else if (241 <=? b)%Z && (b <=? 243)%Z then Some (UCont 2 128 191)
    else if (b =? 244)%Z then Some (UCont 2 128 143)
    else None
  | UCont more lo hi =>
    if (lo <=? b)%Z && (b <=? hi)%Z then
      Some (match more with O => UStart | S m => UCont m 128 191 end)
    else None
  end.

Fixpoint utf8_run (st : utf8_state) (d : list byte) : option utf8_state :=
  match d with
  | [] => Some st
  | b :: r =>
    match utf8_step st (byte_val b) with
    | Some st' => utf8_run st' r
    | None => None
    end
  end.

Definition utf8_valid (d : list byte) : bool :=
  match utf8_run UStart d with
  | Some UStart => true
  | _ => false
  end.

(** [s.encode()] and [d.decode()] *)
Definition encode (s : string) : list byte := String.list_byte_of_string s.

Definition decode (d : list byte) : result string :=
  if utf8_valid d then Ok (String.string_of_list_byte d)
  else Raise UnicodeDecodeError.

(** A [string] of the model stands for a Python [str] when it is
    well-formed UTF-8. *)
Definition is_str (s : string) : bool := utf8_valid (encode s).

(** *** bytes.fromhex

    Two hexadecimal digits per byte, either case; ASCII whitespace between
    bytes is skipped; anything else is a [ValueError]. *)

Definition hex_val (c : ascii) : option Z :=
  let n := Z.of_N (N_of_ascii c) in
  if (48 <=? n)%Z && (n <=? 57)%Z then Some (n - 48)%Z
  else if (97 <=? n)%Z && (n <=? 102)%Z then Some (n - 87)%Z
  else if (65 <=? n)%Z && (n <=? 70)%Z then Some (n - 55)%Z
  else None.

Definition is_space (c : ascii) : bool :=
  let n := Z.of_N (N_of_ascii c) in
  ((9 <=? n)%Z && (n <=? 13)%Z) || (n =? 32)%Z.

Fixpoint fromhex_opt (s : string) : option (list byte) :=
  match s with
  | EmptyString => Some []
  | String c r =>
    if is_space c then fromhex_opt r
    else
      match hex_val c, r with
      | Some hi, String c2 r2 =>
        match hex_val c2 with
        | Some lo => cons (byte_of_Z (16 * hi + lo)) <$> fromhex_opt r2
        | None => None
        end
      | _, _ => None
      end
  end.

Definition fromhex (s : string) : result (list byte) :=
  match fromhex_opt s with
  | Some d => Ok d
  | None => Raise ValueError
  end.

(** ** External libraries: zlib and json

    [zlib.compress] / [zlib.decompress] and [json.dumps] / [json.loads] are
    library calls. The program relies on their inversion laws only, so they
    are interfaces here; [SHA1] above is the third library and is concrete. *)

Class Zlib : Type := {
  zlib_compress : list byte -> list byte;
  (** [None] stands for [zlib.error]. *)
  zlib_decompress : list byte -> option (list byte);
  zlib_roundtrip : forall d, zlib_decompress (zlib_compress d) = Some d
}.

(** What [json.loads] can return. A float is kept as its 64 bits. *)
#[warnings="-register-all"]
Inductive pyval : Type :=
  | PNone
  | PBool (b : bool)
  | PInt (n : Z)
  | PFloat (bits : Z)
  | PStr (s : string)
  | PList (l : list pyval)
  | PDict (kv : list (string * pyval)).

(** The index as [add_file] and [add_directory] build it: a [dict] from
    [str] to [str]. *)
Definition index_dict (m : list (string * string)) : pyval :=
  PDict (map (fun kv => (fst kv, PStr (snd kv))) m).

Class Json : Type := {
  (** [json.dumps(v, indent=2)] *)
  json_dumps : pyval -> string;
  (** [json.loads(text)]; [None] stands for [json.JSONDecodeError]. *)
  json_loads : string -> option pyval;
  json_roundtrip : forall m : list (string * string),
    NoDup (map fst m) ->
    json_loads (json_dumps (index_dict m)) = Some (index_dict m)
}.

(** ** Python [dict] operations on association lists *)

Section Dict.
Context {V : Type}.

Fixpoint dict_get (k : string) (kv : list (string * V)) : option V :=
  match kv with
  | [] => None
  | (k', v) :: r => if String.eqb k' k then Some v else dict_get k r
  end.

Definition dict_has (k : string) (kv : list (string * V)) : bool :=
  match dict_get k kv with Some _ => true | None => false end.

(** [d[k] = v]: an existing key keeps its position, a new key goes last. *)
Fixpoint dict_set (k : string) (v : V) (kv : list (string * V))
  : list (string * V) :=
  match kv with
  | [] => [(k, v)]
  | (k', v') :: r =>
    if String.eqb k' k then (k', v) :: r else (k', v') :: dict_set k v r
  end.
End Dict.

(** Truth value of a Python value, as [not index] tests it. *)
Definition truthy (v : pyval) : bool :=
  match v with
  | PNone => false
  | PBool b => b
  | PInt n => negb (n =? 0)%Z
  | PFloat bits => negb (Z.land bits 9223372036854775807 =? 0)%Z
  | PStr s => negb (String.eqb s "")
  | PList l => match l with [] => false | _ => true end
  | PDict kv => match kv with [] => false | _ => true end
  end.

(** [v.values()] and [v.items()] exist on a [dict] only. *)
Definition py_values (v : pyval) : result (list pyval) :=
  match v with
  | PDict kv => Ok (map snd kv)
  | _ => Raise AttributeError
  end.

Definition py_items (v : pyval) : result (list (string * pyval)) :=
  match v with
  | PDict kv => Ok kv
  | _ => Raise AttributeError
  end.

(** [v[k] = x] with a [str] key: item assignment is a [TypeError] on every
    value of [pyval] but a [dict]. *)
Definition py_setitem (v : pyval) (k : string) (x : pyval) : result pyval :=
  match v with
  | PDict kv => Ok (PDict (dict_set k x kv))
  | _ => Raise TypeError
  end.

Definition hashable (v : pyval) : bool :=
  match v with
  | PList _ | PDict _ => false
  | _ => true
  end.

(** [set(values)]: a [TypeError] at the first unhashable element. The set is
    kept as the list of its elements; the program only tests membership. *)
Definition py_set (values : list pyval) : result (list pyval) :=
  if forallb hashable values then Ok values else Raise TypeError.

(** [h in used] for a [str] [h]: a [str] equals no value of another type. *)
Definition str_in (h : string) (used : list pyval) : bool :=
  existsb (fun v => match v with PStr s => String.eqb s h | _ => false end) used.

(** ** The object model: [GitObject], [Blob], [Tree] *)

(** A tree entry [(mode, name, obj_hash)]. *)
Definition entry : Type := string * string * string.

(** The [content] attribute. The annotation says [bytes], but [Tree.__init__]
    passes its [entries] list to [GitObject.__init__] (line 48), so both
    occur. *)
Inductive pycontent : Type :=
  | CBytes (d : list byte)
  | CEntries (l : list entry).

Record GitObject : Type := {
  obj_type : string;
  obj_content : pycontent
}.

(** [len(self.content)] *)
Definition content_len (c : pycontent) : nat :=
  match c with
  | CBytes d => length d
  | CEntries l => length l
  end.

(** [f"{self.type} {len(self.content)}\0".encode()] *)
Definition header (o : GitObject) : list byte :=
  encode (obj_type o +:+ " " +:+ str_of_nat (content_len (obj_content o))
          +:+ String NUL "").

(** [header + self.content]: [bytes + list] is a [TypeError]. *)
Definition frame (o : GitObject) : result (list byte) :=
  match obj_content o with
  | CBytes d => Ok (header o ++ d)
  | CEntries _ => Raise TypeError
  end.

Definition hash (o : GitObject) : result string :=
  framed ← frame o;
  Ok (SHA1.hexdigest framed).

(** The digest of [(type, content)] for a [bytes] content. *)
Definition digest (ty : string) (content : list byte) : string :=
  SHA1.hexdigest
    (header {| obj_type := ty; obj_content := CBytes content |} ++ content).

Section Objects.
Context `{Zlib}.

Definition serialize (o : GitObject) : result (list byte) :=
  framed ← frame o;
  Ok (zlib_compress framed).

(** [GitObject.deserialize] (with [cls = GitObject]) *)
Definition deserialize (data : list byte) : result GitObject :=
  match zlib_decompress data with
  | None => Raise ZlibError
  | Some decompressed =>
    let null_index := bytes_find x00 decompressed in
    header ← decode (slice_to decompressed null_index);
    let content := slice_from decompressed (null_index + 1) in
    match split " " header with
    | [obj_type; _] => Ok {| obj_type := obj_type; obj_content := CBytes content |}
    | _ => Raise ValueError
    end
  end.
End Objects.

Definition Blob (content : list byte) : GitObject :=
  {| obj_type := "blob"; obj_content := CBytes content |}.

(** *** Tree *)

Record Tree : Type := {
  tree_obj : GitObject;
  tree_entries : list entry
}.

(** Python orders tuples lexicographically and [str] by code point. *)
Definition entry_compare (a b : entry) : comparison :=
  let '(mode1, name1, hash1) := a in
  let '(mode2, name2, hash2) := b in
  match String.compare mode1 mode2 with
  | Eq =>
    match String.compare name1 name2 with
    | Eq => String.compare hash1 hash2
    | c => c
    end
  | c => c
  end.

Definition entry_le (a b : entry) : Prop := entry_compare a b <> Gt.

#[global] Instance entry_le_dec : RelDecision entry_le.
Proof. intros a b. unfold entry_le. apply _. Defined.

(** [sorted(entries)] *)
Definition sorted (entries : list entry) : list entry :=
  merge_sort entry_le entries.

(** The loop of [_serialize_entries] over the sorted entries. *)
Fixpoint serialize_loop (content : list byte) (es : list entry)
  : result (list byte) :=
  match es with
  | [] => Ok content
  | (mode, name, obj_hash) :: r =>
    let content := content ++ encode (mode +:+ " " +:+ name +:+ String NUL "") in
    raw ← fromhex obj_hash;
    serialize_loop (content ++ raw) r
  end.

Definition _serialize_entries (entries : list entry) : result (list byte) :=
  serialize_loop [] (sorted entries).

(** A call of [Tree] with the positional arguments [args]. [__init__]
    declares [entries] without a default, so a call needs exactly one
    argument; [Tree()] is a [TypeError]. The bytes computed on line 47 are
    dropped, and line 48 stores the list itself as [content]. *)
Definition Tree_init (args : list (list entry)) : result Tree :=
  match args with
  | [entries] =>
    _ ← _serialize_entries entries;
    Ok {| tree_obj := {| obj_type := "tree"; obj_content := CEntries entries |};
          tree_entries := entries |}
  | _ => Raise TypeError
  end.

Definition add_entry (t : Tree) (mode name obj_hash : string) : result Tree :=
  let entries := tree_entries t ++ [(mode, name, obj_hash)] in
  content ← _serialize_entries entries;
  Ok {| tree_obj := {| obj_type := obj_type (tree_obj t);
                       obj_content := CBytes content |};
        tree_entries := entries |}.

(** ** The repository

    [.git/index] is a text file, absent before [init]. [.git/objects] is a
    directory whose entries are plain files or directories of files (the
    buckets); the store writes nothing deeper. The working tree is what [add]
    finds at a path: a file, or a directory with the regular files under it. *)

Inductive dirent : Type :=
  | EFile (data : list byte)
  | EDir (files : gmap string (list byte)).

(** A regular file that [rglob] yields: the parts of its path, its path
    relative to the repository ([None] when [relative_to] raises), its
    content. *)
Record found_file : Type := {
  ff_parts : list string;
  ff_rel : option string;
  ff_content : list byte
}.

Inductive wnode : Type :=
  | WFile (content : list byte)
  | WDir (found : list found_file).

Record repo : Type := {
  index_file : option string;
  objects : gmap string dirent;
  worktree : gmap string wnode
}.

Definition set_index_file (txt : string) (st : repo) : repo :=
  {| index_file := Some txt; objects := objects st; worktree := worktree st |}.

Definition set_objects (o : gmap string dirent) (st : repo) : repo :=
  {| index_file := index_file st; objects := o; worktree := worktree st |}.

(** The file [objects_dir / bucket / name], if there is one. *)
Definition lookup_obj (st : repo) (bucket name : string) : option (list byte) :=
  match objects st !! bucket with
  | Some (EDir files) => files !! name
  | _ => None
  end.

(** [obj_file.exists()] for [obj_file = objects_dir / bucket / name] *)
Definition obj_file_exists (st : repo) (bucket name : string) : bool :=
  bool_decide (is_Some (lookup_obj st bucket name)).

(** The same test for the object file of a digest. *)
Definition obj_exists (st : repo) (obj_hash : string) : bool :=
  obj_file_exists st (str_take 2 obj_hash) (str_drop 2 obj_hash).

(** [obj_dir.mkdir(exist_ok=True)] *)
Definition mkdir_exist_ok (bucket : string) (st : repo) : result repo :=
  match objects st !! bucket with
  | None => Ok (set_objects (<[bucket := EDir ∅]> (objects st)) st)
  | Some (EDir _) => Ok st
  | Some (EFile _) => Raise FileExistsError
  end.

(** [obj_file.write_bytes(data)] *)
Definition write_bytes (bucket name : string) (data : list byte) (st : repo)
  : result repo :=
  match objects st !! bucket with
  | Some (EDir files) =>
    Ok (set_objects (<[bucket := EDir (<[name := data]> files)]> (objects st)) st)
  | _ => Raise FileNotFoundError
  end.

(** Every digest in the store: the files of the buckets, a bucket being a
    directory with a two-character name. This is the enumeration [gc] runs. *)
Definition bucket_digests (bucket : string) (e : dirent) : list string :=
  match e with
  | EDir files =>
    if (py_len bucket =? 2)%nat
    then (fun f => bucket +:+ f.1) <$> map_to_list files
    else []
  | EFile _ => []
  end.

Definition all_digests (st : repo) : list string :=
  map_to_list (objects st) ≫= (fun be => bucket_digests be.1 be.2).

(** A [for] loop whose body can raise. *)
Fixpoint for_each {A S} (body : S -> A -> result S) (s : S) (l : list A)
  : result S :=
  match l with
  | [] => Ok s
  | x :: r => s ← body s x; for_each body s r
  end.

(** A tree built by [Tree([])] and one [add_entry] per entry, in order: the
    way [create_tree_recursive] fills its tree. *)
Definition build_tree (entries : list entry) : result Tree :=
  tree ← Tree_init [[]];
  for_each (fun tree e => add_entry tree e.1.1 e.1.2 e.2) tree entries.

Section Repositry.
Context `{Zlib} `{Json}.

Definition save_index (index : pyval) (st : repo) : repo :=
  set_index_file (json_dumps index) st.

Definition store_object (obj : GitObject) (st : repo) : result (string * repo) :=
  obj_hash ← hash obj;
  let obj_dir := str_take 2 obj_hash in
  let obj_file := str_drop 2 obj_hash in
  if obj_file_exists st obj_dir obj_file then Ok (obj_hash, st)
  else
    st ← mkdir_exist_ok obj_dir st;
    data ← serialize obj;
    st ← write_bytes obj_dir obj_file data st;
    Ok (obj_hash, st).

(** The bare [except] turns every failure of the read into [{}]. *)
Definition load_index (st : repo) : pyval :=
  match index_file st with
  | None => PDict []
  | Some txt =>
    match json_loads txt with
    | Some v => v
    | None => PDict []
    end
  end.

(** The values of the index, none when it is no [dict]. *)
Definition index_values (st : repo) : list pyval :=
  match load_index st with
  | PDict kv => map snd kv
  | _ => []
  end.

(** One turn of the outer loop of [gc] on the entry [bucket] of
    [objects]: [None] when the bucket is removed. *)
Definition sweep (used : list pyval) (bucket : string) (e : dirent)
  : option dirent :=
  match e with
  | EFile _ => Some e
  | EDir files =>
    if (py_len bucket =? 2)%nat then
      let kept := filter (fun fd => str_in (bucket +:+ fd.1) used = true) files in
      if decide (kept = ∅) then None else Some (EDir kept)
    else Some e
  end.

Definition gc (st : repo) : result repo :=
  let index := load_index st in
  values ← py_values index;
  used_hashes ← py_set values;
  Ok (set_objects (map_imap (sweep used_hashes) (objects st)) st).

Definition add_file (path : string) (st : repo) : result repo :=
  match worktree st !! path with
  | None => Raise FileNotFoundError
  | Some node =>
    content ← match node with
              | WFile content => Ok content
              | WDir _ => Raise IsADirectoryError
              end;
    let blob := Blob content in
    '(blob_hash, st) ← store_object blob st;
    let index := load_index st in
    index ← py_setitem index path (PStr blob_hash);
    let st := save_index index st in
    gc st
  end.

(** The body of the [for file_path in full_path.rglob(...)] loop. *)
Definition add_found (acc : pyval * repo) (f : found_file)
  : result (pyval * repo) :=
  let '(index, st) := acc in
  if bool_decide (".git" ∈ ff_parts f) || bool_decide (".vscode" ∈ ff_parts f)
  then Ok (index, st)
  else
    let blob := Blob (ff_content f) in
    '(blob_hash, st) ← store_object blob st;
    rel_path ← match ff_rel f with
               | Some p => Ok p
               | None => Raise ValueError
               end;
    index ← py_setitem index rel_path (PStr blob_hash);
    Ok (index, st).

Definition add_directory (path : string) (st : repo) : result repo :=
  match worktree st !! path with
  | None => Raise FileNotFoundError
  | Some (WFile _) => Raise ValueError
  | Some (WDir found) =>
    let index := load_index st in
    '(index, st) ← for_each add_found (index, st) found;
    let st := save_index index st in
    gc st
  end.

(** *** create_tree_from_index *)

(** The walk [for part in parts[1:-1]: ...] followed by
    [curr[parts[-1]] = blob_hash], on [rest = parts[1:]]. The nested
    dictionaries are shared objects in Python; here each level is written
    back into its parent. On a value that is not a [dict] (a blob hash
    staged where a directory is now needed) the membership test, the
    subscript or the assignment raises [TypeError]. *)
Fixpoint insert_nested (curr : pyval) (rest : list string) (blob_hash : pyval)
  : result pyval :=
  match rest with
  | [] => Ok curr
  | [last] => py_setitem curr last blob_hash
  | part :: rest' =>
    match curr with
    | PDict kv =>
      let kv := if dict_has part kv then kv else dict_set part (PDict []) kv in
      match dict_get part kv with
      | Some sub =>
        sub ← insert_nested sub rest' blob_hash;
        Ok (PDict (dict_set part sub kv))
      | None => Ok (PDict kv)
      end
    | _ => Raise TypeError
    end
  end.

(** The body of [for file_path, blob_hash in index.items()]. *)
Definition group_entry (acc : list (string * pyval) * list (string * pyval))
    (item : string * pyval)
  : result (list (string * pyval) * list (string * pyval)) :=
  let '(dirs, files) := acc in
  let '(file_path, blob_hash) := item in
  match split "/" file_path with
  | [] => Ok (dirs, files)
  | [name] => Ok (dirs, dict_set name blob_hash files)
  | dir_name :: rest =>
    let dirs := if dict_has dir_name dirs then dirs
                else dict_set dir_name (PDict []) dirs in
    match dict_get dir_name dirs with
    | Some curr =>
      curr ← insert_nested curr rest blob_hash;
      Ok (dict_set dir_name curr dirs, files)
    | None => Ok (dirs, files)
    end
  end.

(** Lines 286 to 307: the pair [(dirs, files)]. *)
Definition group_index (items : list (string * pyval))
  : result (list (string * pyval) * list (string * pyval)) :=
  for_each group_entry ([], []) items.

(** [create_tree_recursive]. It starts with [Tree()]. *)
Fixpoint create_tree_recursive (entries_dict : pyval) (st : repo) {struct entries_dict}
  : result (string * repo) :=
  tree ← Tree_init [];
  match entries_dict with
  | PDict kv =>
    '(tree, st) ←
      (fix loop (items : list (string * pyval)) (tree : Tree) (st : repo)
         : result (Tree * repo) :=
         match items with
         | [] => Ok (tree, st)
         | (name, value) :: items' =>
           match value with
           | PStr blob_hash =>
             tree ← add_entry tree "100644" name blob_hash;
             loop items' tree st
           | PDict _ =>
             '(subtree_hash, st) ← create_tree_recursive value st;
             tree ← add_entry tree "40000" name subtree_hash;
             loop items' tree st
           | _ => loop items' tree st
           end
         end) kv tree st;
    store_object (tree_obj tree) st
  | _ => Raise AttributeError
  end.

(** The body of [for dir_name, dir_contents in dirs]: iterating a [dict]
    yields its keys, and each key is unpacked into two names. *)
Definition root_entry (root_entries : list (string * pyval)) (key : string)
  : result (list (string * pyval)) :=
  '(dir_name, dir_contents) ← unpack2 key;
  Ok (dict_set dir_name (PStr dir_contents) root_entries).

Definition create_tree_from_index (st : repo) : result (string * repo) :=
  let index := load_index st in
  if negb (truthy index) then
    tree ← Tree_init [];
    store_object (tree_obj tree) st
  else
    items ← py_items index;
    '(dirs, files) ← group_index items;
    let root_entries := files in
    root_entries ← for_each root_entry root_entries (map fst dirs);
    create_tree_recursive (PDict root_entries) st.
End Repositry.

(** ** Small instances of the library interfaces

    Closed examples need some compressor and some JSON codec. These two are
    the smallest that satisfy the interfaces: a store-only container and a
    flat codec for [str] to [str] dictionaries. Every general theorem below
    is proved for all instances. *)

Definition store_compress (d : list byte) : list byte := x78 :: x01 :: d.

Definition store_decompress (data : list byte) : option (list byte) :=
  match data with
  | b0 :: b1 :: d =>
    if Byte.eqb b0 x78 && Byte.eqb b1 x01 then Some d else None
  | _ => None
  end.

#[global] Instance stored_zlib : Zlib := {|
  zlib_compress := store_compress;
  zlib_decompress := store_decompress;
  zlib_roundtrip := fun d => eq_refl
|}.

Module FlatJson.

(** A string is written with a dot before each character and a semicolon
    after the last one. *)
Fixpoint quote (s : string) : string :=
  match s with
  | EmptyString => ";"
  | String c r => String "." (String c (quote r))
  end.

Fixpoint unquote (txt : string) : option (string * string) :=
  match txt with
  | EmptyString => None
  | String c r =>
    if Ascii.eqb c ";" then Some ("", r)
    else if Ascii.eqb c "." then
      match r with
      | String x r' =>
        match unquote r' with
        | Some (s, rest) => Some (String x s, rest)
        | None => None
        end
      | EmptyString => None
      end
    else None
  end.

Fixpoint dumps_pairs (kv : list (string * pyval)) : string :=
  match kv with
  | [] => ""
  | (k, v) :: r =>
    quote k +:+ quote (match v with PStr s => s | _ => "" end) +:+ dumps_pairs r
  end.

Definition dumps (v : pyval) : string :=
  match v with
  | PDict kv => dumps_pairs kv
  | _ => "!"
  end.

Fixpoint parse_pairs (fuel : nat) (txt : string)
  : option (list (string * pyval)) :=
  match txt with
  | EmptyString => Some []
  | _ =>
    match fuel with
    | O => None
    | S fuel' =>
      match unquote txt with
      | Some (k, r) =>
        match unquote r with
        | Some (v, r') =>
          match parse_pairs fuel' r' with
          | Some kv => Some ((k, PStr v) :: kv)
          | None => None
          end
        | None => None
        end
      | None => None
      end
    end
  end.

Definition loads (txt : string) : option pyval :=
  PDict <$> parse_pairs (String.length txt) txt.

End FlatJson.

(** ** Notions used in the statements *)

(** [objects] holds nothing but bucket directories with two-character
    names: what [init] and [store_object] produce. *)
Definition is_bucket (b : string) (e : dirent) : bool :=
  (py_len b =? 2)%nat && match e with EDir _ => true | EFile _ => false end.

Definition only_buckets (st : repo) : Prop :=
  map_Forall (fun b e => is_bucket b e = true) (objects st).

(** The number of occurrences of a character. *)
Fixpoint count_char (c : ascii) (s : string) : nat :=
  match s with
  | EmptyString => 0
  | String x r => (if Ascii.eqb x c then 1 else 0) + count_char c r
  end.

Definition is_digit (c : ascii) : bool :=
  (48 <=? N_of_ascii c)%N && (N_of_ascii c <=? 57)%N.

Fixpoint all_chars (p : ascii -> bool) (s : string) : bool :=
  match s with
  | EmptyString => true
  | String c r => p c && all_chars p r
  end.

Definition is_ascii7 (c : ascii) : bool := (N_of_ascii c <? 128)%N.

Definition hex_ok (e : entry) : bool :=
  match fromhex_opt e.2 with Some _ => true | None => false end.

(** Reading the grouped index back along the segments of a path. *)
Fixpoint nested_get (v : pyval) (parts : list string) : option pyval :=
  match parts with
  | [] => Some v
  | part :: rest =>
    match v with
    | PDict kv =>
      match dict_get part kv with
      | Some sub => nested_get sub rest
      | None => None
      end
    | _ => None
    end
  end.

Definition grouped_get (dirs files : list (string * pyval))
    (parts : list string) : option pyval :=
  match parts with
  | [name] => dict_get name files
  | _ => nested_get (PDict dirs) parts
  end.

(** A comparison function that decides a total order. *)
Record cmp_order {T} (c : T -> T -> comparison) : Prop := {
  cmp_eq : forall x y, c x y = Eq -> x = y;
  cmp_refl : forall x, c x x = Eq;
  cmp_antisym : forall x y, c x y = CompOpp (c y x);
  cmp_lt_trans : forall x y z, c x y = Lt -> c y z = Lt -> c x z = Lt
}.

Definition lex_compare {A B} (ca : A -> A -> comparison)
    (cb : B -> B -> comparison) (p q : A * B) : comparison :=
  match ca p.1 q.1 with
  | Eq => cb p.2 q.2
  | c => c
  end.

(** ** Closed inputs

    States and entries on which the theorems are run. *)

(** A repository right after [init] and [save_index(m)]. *)
Definition staged (m : list (string * string)) : repo :=
  {| index_file := Some (FlatJson.dumps (index_dict m));
     objects := ∅;
     worktree := ∅ |}.

Definition empty_tree : Tree :=
  {| tree_obj := {| obj_type := "tree"; obj_content := CEntries [] |};
     tree_entries := [] |}.

Definition entry_a : entry :=
  ("100644", "a.txt", "aaf4c61ddcc5e8a2dabede0f3b482cd9aea9434d").
Definition entry_b : entry :=
  ("40000", "dir", "7c211433f02071597741e6ff5a8ea34789abbf43").

Definition d_one : string := digest "blob" (encode "one").
Definition d_two : string := digest "blob" (encode "two").
Definition d_three : string := digest "blob" (encode "three").

(** The object of the tree with the single entry [a.txt]. *)
Definition demo_tree : GitObject :=
  match build_tree [("100644", "a.txt", d_one)] with
  | Ok t => tree_obj t
  | Raise _ => Blob []
  end.

Definition d_tree : string :=
  match hash demo_tree with Ok h => h | Raise _ => "" end.

Definition after_store (obj : GitObject) (st : repo) : repo :=
  match store_object obj st with
  | Ok (_, st') => st'
  | Raise _ => st
  end.

(** Three blobs stored, the first one staged. *)
Definition three_blobs : repo :=
  after_store (Blob (encode "three"))
    (after_store (Blob (encode "two"))
       (after_store (Blob (encode "one")) (staged [("a.txt", d_one)]))).

(** The same with the tree of the index stored on top. *)
Definition with_tree : repo := after_store demo_tree three_blobs.

(** A working tree with one file, over a store that still holds two blobs
    nobody references. *)
Definition before_add : repo :=
  {| index_file := index_file three_blobs;
     objects := objects three_blobs;
     worktree := {[ "b.txt" := WFile (encode "bee");
                    "src" := WDir [ {| ff_parts := ["/"; "repo"; "src"; "c.txt"];
                                       ff_rel := Some "src/c.txt";
                                       ff_content := encode "sea" |};
                                    {| ff_parts := ["/"; "repo"; "src"; ".git"; "x"];
                                       ff_rel := Some "src/.git/x";
                                       ff_content := encode "skipped" |} ] ]} |}.

(** ** The caller of the two: [add_path] *)

Section Callers.
Context `{Zlib} `{Json}.

(** [add_path]. A path of the working tree is a file or a directory here,
    so the last branch of the source (neither) has no input. *)
Definition add_path (path : string) (st : repo) : result repo :=
  match worktree st !! path with
  | None => Raise FileNotFoundError
  | Some (WFile _) => add_file path st
  | Some (WDir _) => add_directory path st
  end.
End Callers.

(** Every object file is named by the SHA-1 of what it decompresses to. *)
Definition store_sound `{Zlib} (st : repo) : Prop :=
  forall b f data, lookup_obj st b f = Some data ->
    exists framed,
      zlib_decompress data = Some framed /\ SHA1.hexdigest framed = b +:+ f.

(** What [add_directory] does to a mapping from paths to digests: the files
    it does not skip, in the order [rglob] yields them. *)
Definition skipped (f : found_file) : bool :=
  bool_decide (".git" ∈ ff_parts f) || bool_decide (".vscode" ∈ ff_parts f).

Fixpoint stage_all (m : list (string * string)) (found : list found_file)
  : list (string * string) :=
  match found with
  | [] => m
  | f :: r =>
    if skipped f then stage_all m r
    else
      match ff_rel f with
      | Some p => stage_all (dict_set p (digest "blob" (ff_content f)) m) r
      | None => m
      end
  end.

(** The relative paths of the files that are not skipped. *)
Definition kept_rels (found : list found_file) : list string :=
  omap (fun f => if skipped f then None else ff_rel f) found.

(** ** Commit

    [time.time()] is read from the clock; the model takes the reading as
    the parameter [now]. [int(s)] is a library call of which the program
    needs one law, that it reads back what [str] prints. *)

Definition LF : ascii := "010"%char.

(** [sep.join(parts)] *)
Fixpoint join (sep : string) (parts : list string) : string :=
  match parts with
  | [] => ""
  | p :: r =>
    match r with
    | [] => p
    | _ :: _ => p +:+ sep +:+ join sep r
    end
  end.

(** [s.rsplit(sep, maxsplit)]: the last [maxsplit] separators cut, the
    earlier ones stay in the first part. *)
Definition rsplit (sep : ascii) (maxsplit : nat) (s : string) : list string :=
  let parts := split sep s in
  let k := Nat.max 1 (length parts - maxsplit) in
  join (String sep "") (take k parts) :: drop k parts.

(** [str(n)] for an [int] *)
Definition str_of_Z (n : Z) : string := NilEmpty.string_of_int (Z.to_int n).

Class PyInt : Type := {
  py_int : string -> option Z;
  py_int_str : forall n : Z, py_int (str_of_Z n) = Some n
}.

(** [f"{v}"] for a value that is a [str] or [None] *)
Definition fstr (v : option string) : string := default "None" v.

Record Commit : Type := {
  commit_obj : GitObject;
  tree_hash : option string;
  parent_hashes : list string;
  author : option string;
  committer : option string;
  message : string;
  timestamp : Z
}.

Definition _serialize_commit (tree_hash : option string)
    (parent_hashes : list string) (author committer : option string)
    (message : string) (timestamp : Z) : list byte :=
  let lines := ["tree " +:+ fstr tree_hash] in
  let lines := lines ++ map (fun parent => "parent " +:+ parent) parent_hashes in
  let lines := lines ++ ["author " +:+ fstr author +:+ " " +:+ str_of_Z timestamp
                         +:+ " +0000"] in
  let lines := lines ++ ["committer " +:+ fstr committer +:+ " "
                         +:+ str_of_Z timestamp +:+ " +0000"] in
  let lines := lines ++ [""] in
  let lines := lines ++ [message] in
  encode (join (String LF "") lines).

(** A call of [Commit]. [parent_hashes] has no default: [None] stands for a
    call that does not pass it, which is a [TypeError] before the body
    runs. [timestamp or int(time.time())] replaces [None] and [0] alike. *)
Definition Commit_init (now : Z) (tree_hash : option string)
    (parent_hashes : option (list string)) (author committer : option string)
    (message : string) (timestamp : option Z) : result Commit :=
  match parent_hashes with
  | None => Raise TypeError
  | Some parent_hashes =>
    let timestamp :=
      match timestamp with
      | Some t => if (t =? 0)%Z then now else t
      | None => now
      end in
    let content :=
      _serialize_commit tree_hash parent_hashes author committer message
        timestamp in
    Ok {| commit_obj := {| obj_type := "commit"; obj_content := CBytes content |};
          tree_hash := tree_hash;
          parent_hashes := parent_hashes;
          author := author;
          committer := committer;
          message := message;
          timestamp := timestamp |}
  end.

(** [Commit.from_content] raises two exceptions that nothing else in the
    file does. *)
Inductive commit_exn : Type :=
  | Builtin (e : exn)
  | IndexError
  | UnboundLocalError.

(** The locals of [from_content]. [timestamp] is assigned in the [author]
    branch only: [None] is the unbound local. *)
Record commit_locals : Type := {
  l_tree_hash : option string;
  l_parent_hashes : list string;
  l_author : option string;
  l_committer : option string;
  l_timestamp : option Z;
  l_msg_start_index : nat
}.

Definition initial_locals : commit_locals :=
  {| l_tree_hash := None; l_parent_hashes := []; l_author := None;
     l_committer := None; l_timestamp := None; l_msg_start_index := 0 |}.

Section CommitParsing.
Context `{PyInt}.

(** [for i, line in enumerate(lines)] *)
Fixpoint scan_lines (i : nat) (lines : list string) (l : commit_locals)
  : commit_exn + commit_locals :=
  match lines with
  | [] => inr l
  | line :: rest =>
    if String.prefix "tree " line then
      scan_lines (S i) rest
        {| l_tree_hash := Some (str_drop 5 line);
           l_parent_hashes := l_parent_hashes l; l_author := l_author l;
           l_committer := l_committer l; l_timestamp := l_timestamp l;
           l_msg_start_index := l_msg_start_index l |}
    else if String.prefix "parent " line then
      scan_lines (S i) rest
        {| l_tree_hash := l_tree_hash l;
           l_parent_hashes := l_parent_hashes l ++ [str_drop 7 line];
           l_author := l_author l;
           l_committer := l_committer l; l_timestamp := l_timestamp l;
           l_msg_start_index := l_msg_start_index l |}
    else if String.prefix "author " line then
      match rsplit " " 2 (str_drop 7 line) with
      | a :: t :: _ =>
        match py_int t with
        | Some n =>
          scan_lines (S i) rest
            {| l_tree_hash := l_tree_hash l;
               l_parent_hashes := l_parent_hashes l;
               l_author := Some a;
               l_committer := l_committer l; l_timestamp := Some n;
               l_msg_start_index := l_msg_start_index l |}
        | None => inl (Builtin ValueError)
        end
      | _ => inl IndexError
      end
    else if String.prefix "committer " line then
      match rsplit " " 2 (str_drop 10 line) with
      | c :: _ =>
        scan_lines (S i) rest
          {| l_tree_hash := l_tree_hash l;
             l_parent_hashes := l_parent_hashes l;
             l_author := l_author l;
             l_committer := Some c; l_timestamp := l_timestamp l;
             l_msg_start_index := l_msg_start_index l |}
      | [] => inl IndexError
      end
    else if String.eqb line "" then
      inr {| l_tree_hash := l_tree_hash l;
             l_parent_hashes := l_parent_hashes l;
             l_author := l_author l;
             l_committer := l_committer l; l_timestamp := l_timestamp l;
             l_msg_start_index := S i |}
    else scan_lines (S i) rest l
  end.

Definition Commit_from_content (now : Z) (content : list byte)
  : commit_exn + Commit :=
  match decode content with
  | Raise e => inl (Builtin e)
  | Ok text =>
    let lines := split LF text in
    match scan_lines 0 lines initial_locals with
    | inl e => inl e
    | inr l =>
      let message := join (String LF "") (drop (l_msg_start_index l) lines) in
      match l_timestamp l with
      | None => inl UnboundLocalError
      | Some timestamp =>
        match Commit_init now (l_tree_hash l) (Some (l_parent_hashes l))
                (l_author l) (l_committer l) message (Some timestamp) with
        | Ok commit => inr commit
        | Raise e => inl (Builtin e)
        end
      end
    end
  end.
End CommitParsing.

(** A decimal reader, to show the law of [PyInt] can be met. *)
Definition decimal_int (s : string) : option Z :=
  match NilEmpty.int_of_string s with
  | Some (Decimal.Pos Decimal.Nil) | Some (Decimal.Neg Decimal.Nil) => None
  | Some d => Some (Z.of_int d)
  | None => None
  end.

Section CommitCommand.
Context `{Zlib} `{Json}.

(** [Repositry.commit]: the call of [Commit] passes no [parent_hashes]. *)
Definition commit (now : Z) (message author : string) (st : repo) : result repo :=
  '(tree_hash, st) ← create_tree_from_index st;
  _ ← Commit_init now (Some tree_hash) None (Some author) (Some author)
        message None;
  Ok st.
End CommitCommand.

(** A field that fits on one header line of a commit. *)
Definition one_line (s : string) : bool :=
  is_str s && (count_char LF s =? 0)%nat.

(** The lines before the first empty one. *)
Fixpoint header_lines (lines : list string) : list string :=
  match lines with
  | [] => []
  | line :: rest => if String.eqb line "" then [] else line :: header_lines rest
  end.

(** The characters [str] prints for an [int]. *)
Definition is_decimal (c : ascii) : bool := is_digit c || Ascii.eqb c "-".

(** A slice from code point [0] keeps the whole string: the string does not
    start inside a character. *)
Definition starts_clean (s : string) : Prop := str_split_at 0 s = ("", s).

(** ** Tree.from_content *)

(** [s.split(sep, 1)]: one cut, at the first separator. *)
Fixpoint split_once (sep : ascii) (s : string) : list string :=
  match s with
  | EmptyString => [""]
  | String c r =>
    if Ascii.eqb c sep then [""; r]
    else
      match split_once sep r with
      | h :: t => String c h :: t
      | [] => [String c ""]
      end
  end.

(** [d.hex()]: two lower-case digits per byte. *)
Definition hex_byte (b : byte) : string :=
  String (SHA1.hex_digit (byte_val b / 16))
    (String (SHA1.hex_digit (byte_val b mod 16)) "").

Fixpoint bytes_hex (d : list byte) : string :=
  match d with
  | [] => ""
  | b :: r => hex_byte b +:+ bytes_hex r
  end.

(** The [while] loop of [from_content]. Every round moves [i] forward by
    at least 21, so [len(content) + 1] rounds of fuel are never used up. *)
Fixpoint from_content_loop (fuel : nat) (content : list byte) (i : nat)
    (entries : list entry) : result (list entry) :=
  match fuel with
  | O => Ok entries
  | S fuel =>
    if (i <? length content)%nat then
      match find_byte x00 (drop i content) with
      | None => Ok entries
      | Some k =>
        let null_index := (i + k)%nat in
        mode_name ← decode (take k (drop i content));
        match split_once " " mode_name with
        | [mode; name] =>
          let obj_hash := bytes_hex (take 20 (drop (null_index + 1) content)) in
          from_content_loop fuel content (null_index + 21)
            (entries ++ [(mode, name, obj_hash)])
        | _ => Raise ValueError
        end
      end
    else Ok entries
  end.

(** [Tree.from_content]: it starts with [cls()]. *)
Definition Tree_from_content (content : list byte) : result Tree :=
  tree ← Tree_init [];
  entries ← from_content_loop (S (length content)) content 0 (tree_entries tree);
  Ok {| tree_obj := tree_obj tree; tree_entries := entries |}.

Definition is_lower_hex (c : ascii) : bool :=
  is_digit c || ((97 <=? N_of_ascii c)%N && (N_of_ascii c <=? 102)%N).

(** An entry as git writes it: a mode without space, a name, both text
    without NUL, and a hash of forty lower-case hexadecimal digits. *)
Definition tree_entry_ok (e : entry) : bool :=
  let '(mode, name, obj_hash) := e in
  is_str mode && is_str name &&
  (count_char " " mode =? 0)%nat && (count_char NUL mode =? 0)%nat &&
  (count_char NUL name =? 0)%nat &&
  all_chars is_lower_hex obj_hash && (String.length obj_hash =? 40)%nat.

(** The bytes one entry contributes to a tree. *)
Definition entry_bytes (e : entry) : list byte :=
  let '(mode, name, obj_hash) := e in
  encode (mode +:+ " " +:+ name +:+ String NUL "")
  ++ default [] (fromhex_opt obj_hash).

Definition hex_digits : list ascii :=
  ["0"; "1"; "2"; "3"; "4"; "5"; "6"; "7"; "8"; "9";
   "a"; "b"; "c"; "d"; "e"; "f"]%char.

(** Two digits read by [bytes.fromhex] and printed again by [hex]. *)
Definition hex_pair_ok (c1 c2 : ascii) : bool :=
  negb (is_space c1) &&
  match hex_val c1, hex_val c2 with
  | Some hi, Some lo =>
    String.eqb (hex_byte (byte_of_Z (16 * hi + lo))) (String c1 (String c2 ""))
  | _, _ => false
  end.

(** * Properties *)

(** ** Test vectors *)

Example sha1_empty :
  SHA1.hexdigest [] = "da39a3ee5e6b4b0d3255bfef95601890afd80709".
Proof. vm_compute. reflexivity. Qed.

Example sha1_abc :
  SHA1.hexdigest [x61; x62; x63] = "a9993e364706816aba3e25717850c26c9cd0d89d".
Proof. vm_compute. reflexivity. Qed.

Example split_header : split " " "blob 5" = ["blob"; "5"].
Proof. reflexivity. Qed.

Example split_two_spaces : split " " "a b 0" = ["a"; "b"; "0"].
Proof. reflexivity. Qed.

Example split_path : split "/" "a//b" = ["a"; ""; "b"].
Proof. reflexivity. Qed.

Example str_of_nat_0 : str_of_nat 0 = "0".
Proof. reflexivity. Qed.

Example str_of_nat_120 : str_of_nat 120 = "120".
Proof. reflexivity. Qed.

Example fromhex_spaces : fromhex "0a FF" = Ok [x0a; xff].
Proof. reflexivity. Qed.

Example decode_overlong : decode [xc0; x80] = Raise UnicodeDecodeError.
Proof. reflexivity. Qed.

Example decode_e_acute : is_ok (decode [xc3; xa9]) = true.
Proof. reflexivity. Qed.

(** ** Strings and bytes *)

Lemma app_cons c (a b : string) : String c a +:+ b = String c (a +:+ b).
Proof. reflexivity. Qed.

Lemma app_nil_l (b : string) : "" +:+ b = b.
Proof. reflexivity. Qed.

Lemma encode_cons c s : encode (String c s) = byte_of_ascii c :: encode s.
Proof. reflexivity. Qed.

Lemma encode_app a b : encode (a +:+ b) = encode a ++ encode b.
Proof.
  induction a as [|c a IH]; [reflexivity|].
  rewrite app_cons, !encode_cons, IH. reflexivity.
Qed.

Lemma encode_length s : length (encode s) = String.length s.
Proof. induction s as [|c s IH]; [reflexivity|]. rewrite encode_cons. simpl. congruence. Qed.

Lemma count_char_app c a b :
  count_char c (a +:+ b) = (count_char c a + count_char c b)%nat.
Proof.
  induction a as [|x a IH]; [reflexivity|].
  rewrite ?app_cons; simpl. rewrite IH. lia.
Qed.

Lemma split_nonempty sep s : split sep s <> [].
Proof.
  destruct s as [|c s]; simpl; [discriminate|].
  destruct (Ascii.eqb c sep); [discriminate|].
  destruct (split sep s); discriminate.
Qed.

Lemma split_length sep s : length (split sep s) = S (count_char sep s).
Proof.
  induction s as [|c s IH]; [reflexivity|]. simpl.
  destruct (Ascii.eqb c sep); simpl; [congruence|].
  destruct (split sep s) eqn:E; [destruct (split_nonempty _ _ E)|].
  simpl in *. congruence.
Qed.

Lemma split_none sep s : count_char sep s = 0%nat -> split sep s = [s].
Proof.
  induction s as [|c s IH]; [reflexivity|]. simpl.
  destruct (Ascii.eqb c sep); [discriminate|]. intros Hs.
  rewrite IH by exact Hs. reflexivity.
Qed.

Lemma split_app sep a b :
  count_char sep a = 0%nat ->
  split sep (a +:+ String sep b) = a :: split sep b.
Proof.
  induction a as [|c a IH].
  - intros _. rewrite ?app_nil_l; simpl. rewrite Ascii.eqb_refl. reflexivity.
  - simpl. destruct (Ascii.eqb c sep) eqn:E; [discriminate|]. intros Ha.
    rewrite ?app_cons; simpl. rewrite ?E. rewrite IH by exact Ha. reflexivity.
Qed.

Lemma byte_is_nul c : Byte.eqb (byte_of_ascii c) x00 = Ascii.eqb c NUL.
Proof. destruct c as [[] [] [] [] [] [] [] []]; reflexivity. Qed.

Lemma byte_val_of_ascii c : byte_val (byte_of_ascii c) = Z.of_N (N_of_ascii c).
Proof. destruct c as [[] [] [] [] [] [] [] []]; reflexivity. Qed.

Lemma find_byte_nul s rest :
  count_char NUL s = 0%nat ->
  find_byte x00 (encode s ++ x00 :: rest) = Some (String.length s).
Proof.
  induction s as [|c s IH]; [reflexivity|].
  rewrite encode_cons. simpl. rewrite byte_is_nul.
  destruct (Ascii.eqb c NUL); [discriminate|]. intros Hs.
  rewrite IH by exact Hs. reflexivity.
Qed.

Lemma slice_to_app {A} (a b : list A) :
  slice_to (a ++ b) (Z.of_nat (length a)) = a.
Proof.
  unfold slice_to, slice_bound. rewrite length_app.
  destruct (Z.ltb_spec (Z.of_nat (length a)) 0); [lia|].
  rewrite Z.min_r by lia. rewrite Nat2Z.id. apply take_app_length.
Qed.

Lemma slice_from_app {A} (a : list A) x b :
  slice_from (a ++ x :: b) (Z.of_nat (length a) + 1) = b.
Proof.
  unfold slice_from, slice_bound. rewrite length_app. simpl.
  destruct (Z.ltb_spec (Z.of_nat (length a) + 1) 0); [lia|].
  rewrite Z.min_r by lia.
  replace (Z.to_nat (Z.of_nat (length a) + 1)) with (length a + 1)%nat by lia.
  rewrite <- drop_drop, drop_app_length. reflexivity.
Qed.

(** *** The flat codec satisfies the json interface *)

Lemma unquote_quote s rest : FlatJson.unquote (FlatJson.quote s +:+ rest) = Some (s, rest).
Proof.
  induction s as [|c s IH]; [reflexivity|].
  cbn [FlatJson.quote]. rewrite !app_cons. cbn [FlatJson.unquote Ascii.eqb Bool.eqb].
  rewrite IH. reflexivity.
Qed.

Lemma string_length_append (a b : string) :
  String.length (a +:+ b) = (String.length a + String.length b)%nat.
Proof.
  induction a as [|c a IH]; [reflexivity|].
  rewrite app_cons. simpl. rewrite IH. reflexivity.
Qed.

Lemma quote_length s : (1 <= String.length (FlatJson.quote s))%nat.
Proof. destruct s; simpl; lia. Qed.

Lemma quote_nonempty s rest : FlatJson.quote s +:+ rest <> "".
Proof. destruct s; discriminate. Qed.

Lemma flat_parse_dumps (m : list (string * string)) : forall fuel,
  (length m <= fuel)%nat ->
  FlatJson.parse_pairs fuel (FlatJson.dumps_pairs (map (fun kv => (kv.1, PStr kv.2)) m))
  = Some (map (fun kv => (kv.1, PStr kv.2)) m).
Proof.
  induction m as [|[k v] m IH]; intros fuel Hfuel.
  - destruct fuel; reflexivity.
  - destruct fuel as [|fuel]; [simpl in Hfuel; lia|].
    cbn [map FlatJson.dumps_pairs fst snd FlatJson.parse_pairs].
    destruct (FlatJson.quote k +:+ FlatJson.quote v +:+ _) eqn:E;
      [exfalso; exact (quote_nonempty _ _ E)|].
    rewrite <- E, unquote_quote, unquote_quote, IH by (simpl in Hfuel; lia).
    reflexivity.
Qed.

Lemma dumps_length (m : list (string * string)) :
  (length m <=
   String.length (FlatJson.dumps_pairs (map (fun kv => (kv.1, PStr kv.2)) m)))%nat.
Proof.
  induction m as [|[k v] m IH]; simpl; [lia|].
  rewrite !string_length_append. pose proof (quote_length k). lia.
Qed.

Lemma flat_roundtrip (m : list (string * string)) :
  NoDup (map fst m) -> FlatJson.loads (FlatJson.dumps (index_dict m)) = Some (index_dict m).
Proof.
  intros _. unfold FlatJson.loads, FlatJson.dumps, index_dict.
  rewrite flat_parse_dumps by apply dumps_length. reflexivity.
Qed.

#[global] Instance flat_json : Json := {|
  json_dumps := FlatJson.dumps;
  json_loads := FlatJson.loads;
  json_roundtrip := flat_roundtrip
|}.

(** *** UTF-8 well-formedness of concatenations *)

Lemma utf8_run_app st a b :
  utf8_run st (a ++ b) = utf8_run st a ≫= fun st' => utf8_run st' b.
Proof.
  revert st. induction a as [|x a IH]; intros st; [reflexivity|].
  simpl. destruct (utf8_step st (byte_val x)); [apply IH|reflexivity].
Qed.

Lemma utf8_valid_app a b :
  utf8_valid a = true -> utf8_valid b = true -> utf8_valid (a ++ b) = true.
Proof.
  unfold utf8_valid. rewrite utf8_run_app.
  destruct (utf8_run UStart a) as [[]|]; try discriminate.
  intros _ Hb. exact Hb.
Qed.

Lemma all_chars_app p a b :
  all_chars p (a +:+ b) = all_chars p a && all_chars p b.
Proof.
  induction a as [|c a IH]; [reflexivity|].
  rewrite ?app_cons; simpl. rewrite IH, andb_assoc. reflexivity.
Qed.

Lemma all_chars_impl (p q : ascii -> bool) s :
  (forall c, p c = true -> q c = true) ->
  all_chars p s = true -> all_chars q s = true.
Proof.
  intros Hpq. induction s as [|c s IH]; [reflexivity|]. simpl.
  intros [Hc Hs]%andb_true_iff. rewrite (Hpq _ Hc), IH by exact Hs. reflexivity.
Qed.

Lemma all_chars_count p c s :
  p c = false -> all_chars p s = true -> count_char c s = 0%nat.
Proof.
  intros Hc. induction s as [|x s IH]; [reflexivity|]. simpl.
  intros [Hx Hs]%andb_true_iff.
  destruct (Ascii.eqb_spec x c) as [->|_]; [congruence|].
  rewrite IH by exact Hs. reflexivity.
Qed.

Lemma utf8_run_ascii s :
  all_chars is_ascii7 s = true -> utf8_run UStart (encode s) = Some UStart.
Proof.
  induction s as [|c s IH]; [reflexivity|]. cbn [all_chars].
  intros [Hc Hs]%andb_true_iff. rewrite encode_cons. cbn [utf8_run].
  rewrite byte_val_of_ascii. unfold is_ascii7 in Hc. unfold utf8_step.
  apply N.ltb_lt in Hc.
  destruct (Z.ltb_spec (Z.of_N (N_of_ascii c)) 128); [|lia].
  apply IH, Hs.
Qed.

Lemma string_of_uint_digits d :
  all_chars is_digit (NilEmpty.string_of_uint d) = true.
Proof. induction d; simpl; auto. Qed.

Lemma str_of_nat_digits n : all_chars is_digit (str_of_nat n) = true.
Proof. apply string_of_uint_digits. Qed.

Lemma digit_ascii7 c : is_digit c = true -> is_ascii7 c = true.
Proof.
  unfold is_digit, is_ascii7. intros [_ H]%andb_true_iff.
  apply N.leb_le in H. apply N.ltb_lt. lia.
Qed.

(** ** Framing round trip *)

Section ObjectProperties.
Context `{Zlib}.

(** The header splits back into the type and the length when the type
    holds no space and no NUL. *)
Lemma deserialize_frame ty n content :
  is_str ty = true ->
  count_char " " ty = 0%nat ->
  count_char NUL ty = 0%nat ->
  deserialize
    (zlib_compress
       (encode (ty +:+ " " +:+ str_of_nat n +:+ String NUL "") ++ content))
  = Ok {| obj_type := ty; obj_content := CBytes content |}.
Proof.
  intros Hstr Hsp Hnul. unfold deserialize. rewrite zlib_roundtrip.
  pose proof (str_of_nat_digits n) as Hdig.
  set (hd := ty +:+ " " +:+ str_of_nat n).
  assert (Hhd : encode (ty +:+ " " +:+ str_of_nat n +:+ String NUL "") ++ content
                = encode hd ++ x00 :: content).
  { unfold hd. rewrite !encode_app. change (encode (String NUL "")) with [x00].
    rewrite <- !app_assoc. reflexivity. }
  rewrite Hhd.
  assert (Hfind : bytes_find x00 (encode hd ++ x00 :: content)
                  = Z.of_nat (length (encode hd))).
  { unfold bytes_find. rewrite find_byte_nul, encode_length; [reflexivity|].
    unfold hd. rewrite !count_char_app, Hnul. simpl.
    rewrite (all_chars_count is_digit NUL) by (reflexivity || exact Hdig).
    reflexivity. }
  rewrite Hfind, slice_to_app, slice_from_app.
  unfold decode.
  assert (Hvalid : utf8_valid (encode hd) = true).
  { unfold hd. rewrite !encode_app. apply utf8_valid_app; [exact Hstr|].
    apply utf8_valid_app; [reflexivity|].
    unfold utf8_valid. rewrite utf8_run_ascii; [reflexivity|].
    eapply all_chars_impl; [apply digit_ascii7|exact Hdig]. }
  rewrite Hvalid. cbn [mbind result_bind].
  unfold encode. rewrite String.string_of_list_byte_of_string.
  unfold hd. change (" " +:+ str_of_nat n) with (String " " (str_of_nat n)).
  rewrite split_app by exact Hsp.
  rewrite split_none; [reflexivity|].
  apply (all_chars_count is_digit); [reflexivity|exact Hdig].
Qed.
End ObjectProperties.

Section ObjectClaims.
Context `{Zlib}.

Lemma split_one sep s :
  count_char sep s = 1%nat ->
  exists a b, split sep s = [a; b] /\ s = a +:+ String sep b.
Proof.
  induction s as [|c s IH]; [discriminate|]. simpl.
  destruct (Ascii.eqb_spec c sep) as [->|Hne].
  - intros Hs. exists "", s. split; [|reflexivity].
    rewrite split_none by lia. reflexivity.
  - intros Hs. destruct (IH Hs) as (a & b & Hsplit & ->).
    exists (String c a), b. rewrite Hsplit. split; reflexivity.
Qed.

Lemma split_not_two sep s :
  count_char sep s <> 1%nat ->
  match split sep s with [_; _] => False | _ => True end.
Proof.
  intros Hs. pose proof (split_length sep s) as Hlen.
  destruct (split sep s) as [|a [|b [|c l]]]; simpl in *; try exact I. lia.
Qed.

(** A type with a space does not come back: the header then has three
    fields. *)
Lemma serialize_space_type :
  (data ← serialize {| obj_type := "a b"; obj_content := CBytes [] |};
   deserialize data) = Raise ValueError.
Proof.
  unfold serialize, deserialize, frame. cbn [mbind result_bind obj_content].
  rewrite zlib_roundtrip. reflexivity.
Qed.

(** Three frames that [deserialize] accepts: a declared length of 99 over
    two bytes, a length that is no integer, and no NUL at all. *)
Lemma deserialize_unchecked :
  deserialize (zlib_compress (encode "blob 99" ++ x00 :: encode "hi"))
    = Ok {| obj_type := "blob"; obj_content := CBytes (encode "hi") |} /\
  deserialize (zlib_compress (encode "blob xyz" ++ x00 :: encode "hi"))
    = Ok {| obj_type := "blob"; obj_content := CBytes (encode "hi") |} /\
  deserialize (zlib_compress (encode "blob 5x"))
    = Ok {| obj_type := "blob"; obj_content := CBytes (encode "blob 5x") |}.
Proof.
  unfold deserialize. rewrite !zlib_roundtrip. repeat split; reflexivity.
Qed.

(** C4 (amended): for every type, a [str] that encodes to UTF-8, that holds
    neither a space nor a NUL character, and every content,
    [deserialize (serialize (type, content))] returns exactly
    [(type, content)]. *)
Theorem deserialize_serialize (ty : string) (content : list byte) :
  is_str ty = true ->
  count_char " " ty = 0%nat ->
  count_char NUL ty = 0%nat ->
  (data ← serialize {| obj_type := ty; obj_content := CBytes content |};
   deserialize data)
  = Ok {| obj_type := ty; obj_content := CBytes content |}.
Proof.
  intros Hstr Hsp Hnul. unfold serialize, frame, header.
  cbn [mbind result_bind obj_content obj_type content_len].
  apply deserialize_frame; assumption.
Qed.

(** C5 (amended): once the input decompresses and the bytes before the
    first NUL (all but the last byte when there is no NUL) decode,
    [deserialize] raises [ValueError] whenever that header does not hold
    exactly one space; with exactly one space it returns the first field
    and every byte after the NUL, whatever the second field and the
    number of bytes are, and it never raises [CorruptObject]. *)
Theorem deserialize_checks_fields_only (data d : list byte) :
  zlib_decompress data = Some d ->
  utf8_valid (slice_to d (bytes_find x00 d)) = true ->
  let header := String.string_of_list_byte (slice_to d (bytes_find x00 d)) in
  (count_char " " header <> 1%nat -> deserialize data = Raise ValueError) /\
  (count_char " " header = 1%nat ->
   exists ty len, header = ty +:+ String " " len /\
     deserialize data
     = Ok {| obj_type := ty;
             obj_content := CBytes (slice_from d (bytes_find x00 d + 1)) |}) /\
  deserialize data <> Raise CorruptObject.
Proof.
  intros Hd Hvalid header. unfold deserialize. rewrite Hd. unfold decode.
  rewrite Hvalid. cbn [mbind result_bind]. fold header. repeat split.
  - intros Hcount. apply (split_not_two " ") in Hcount.
    destruct (split " " header) as [|a [|b [|c l]]]; try reflexivity.
    destruct Hcount.
  - intros Hcount. destruct (split_one " " header Hcount) as (a & b & Hs & Hh).
    exists a, b. rewrite Hs. split; [exact Hh|reflexivity].
  - destruct (split " " header) as [|a [|b [|c l]]]; discriminate.
Qed.
End ObjectClaims.

(** The type ["a b"] is not restored. *)
Lemma deserialize_serialize_fails_on_space :
  (data ← serialize {| obj_type := "a b"; obj_content := CBytes [] |};
   deserialize data) = Raise ValueError.
Proof. exact (serialize_space_type (H := stored_zlib)). Qed.

Lemma deserialize_serialize_blob :
  (data ← serialize {| obj_type := "blob"; obj_content := CBytes [x68; x69] |};
   deserialize data)
  = Ok {| obj_type := "blob"; obj_content := CBytes [x68; x69] |}.
Proof.
  apply (deserialize_serialize (H := stored_zlib) "blob" [x68; x69]);
    reflexivity.
Defined.

(** A wrong length, a length that is no integer and a missing NUL are all
    accepted. *)
Lemma deserialize_accepts_corrupt :
  deserialize (zlib_compress (encode "blob 99" ++ x00 :: encode "hi"))
    = Ok {| obj_type := "blob"; obj_content := CBytes (encode "hi") |} /\
  deserialize (zlib_compress (encode "blob xyz" ++ x00 :: encode "hi"))
    = Ok {| obj_type := "blob"; obj_content := CBytes (encode "hi") |} /\
  deserialize (zlib_compress (encode "blob 5x"))
    = Ok {| obj_type := "blob"; obj_content := CBytes (encode "blob 5x") |}.
Proof. exact (deserialize_unchecked (H := stored_zlib)). Qed.

Lemma deserialize_checks_fields_only_witness :
  deserialize (zlib_compress (encode "tree" ++ x00 :: encode "hi"))
    = Raise ValueError /\
  exists ty len, "blob 99" = ty +:+ String " " len /\
    deserialize (zlib_compress (encode "blob 99" ++ x00 :: encode "hi"))
    = Ok {| obj_type := ty; obj_content := CBytes (encode "hi") |}.
Proof.
  split.
  - refine (proj1 (deserialize_checks_fields_only (H := stored_zlib)
      (zlib_compress (encode "tree" ++ x00 :: encode "hi"))
      (encode "tree" ++ x00 :: encode "hi") eq_refl eq_refl) _).
    vm_compute. discriminate.
  - refine (proj1 (proj2 (deserialize_checks_fields_only (H := stored_zlib)
      (zlib_compress (encode "blob 99" ++ x00 :: encode "hi"))
      (encode "blob 99" ++ x00 :: encode "hi") eq_refl eq_refl)) _).
    reflexivity.
Defined.

(** ** The order of tree entries *)

Lemma lex_order {A B} (ca : A -> A -> comparison) (cb : B -> B -> comparison) :
  cmp_order ca -> cmp_order cb -> cmp_order (lex_compare ca cb).
Proof.
  intros [ea ra aa ta] [eb rb ab tb]. unfold lex_compare. split.
  - intros [x1 x2] [y1 y2]; simpl.
    destruct (ca x1 y1) eqn:E1; try discriminate.
    intros E2. f_equal; auto.
  - intros [x1 x2]; simpl. rewrite ra. apply rb.
  - intros [x1 x2] [y1 y2]; simpl. rewrite (aa x1 y1).
    destruct (ca y1 x1); simpl; auto.
  - intros [x1 x2] [y1 y2] [z1 z2]; simpl.
    destruct (ca x1 y1) eqn:E1; try discriminate;
      destruct (ca y1 z1) eqn:E2; try discriminate.
    + apply ea in E1, E2. subst. rewrite ra. apply tb.
    + apply ea in E1. subst. rewrite E2. reflexivity.
    + apply ea in E2. subst. rewrite E1. reflexivity.
    + rewrite (ta _ _ _ E1 E2). reflexivity.
Qed.

Lemma string_compare_order : cmp_order String.compare.
Proof.
  assert (Hrefl : forall s, String.compare s s = Eq).
  { induction s as [|c s IH]; simpl; [reflexivity|].
    unfold Ascii.compare. rewrite N.compare_refl. exact IH. }
  split.
  - intros x y. apply String.compare_eq_iff.
  - exact Hrefl.
  - apply String.compare_antisym.
  - intros x y z Hxy Hyz.
    assert (Hle : String.le x z).
    { transitivity y; unfold String.le, String.leb; [rewrite Hxy|rewrite Hyz]; exact I. }
    unfold String.le, String.leb in Hle.
    destruct (String.compare x z) eqn:Hxz; [|reflexivity|destruct Hle].
    apply String.compare_eq_iff in Hxz. subst z.
    rewrite String.compare_antisym, Hyz in Hxy. discriminate.
Qed.

Lemma entry_compare_lex a b :
  entry_compare a b
  = lex_compare (lex_compare String.compare String.compare) String.compare a b.
Proof.
  destruct a as [[m1 n1] h1], b as [[m2 n2] h2]. unfold lex_compare. simpl.
  destruct (String.compare m1 m2); reflexivity.
Qed.

Lemma entry_compare_order : cmp_order entry_compare.
Proof.
  pose proof (lex_order _ _ (lex_order _ _ string_compare_order
    string_compare_order) string_compare_order) as [e r a t].
  split; intros *; rewrite ?entry_compare_lex; eauto.
Qed.

#[global] Instance entry_le_total : Total entry_le.
Proof.
  intros a b. unfold entry_le.
  rewrite (cmp_antisym _ entry_compare_order b a).
  destruct (entry_compare a b); simpl; [left|left|right]; discriminate.
Qed.

#[global] Instance entry_le_trans : Transitive entry_le.
Proof.
  destruct entry_compare_order as [e r a t].
  intros x y z. unfold entry_le. intros Hxy Hyz.
  destruct (entry_compare x y) eqn:E1; [| |destruct Hxy; reflexivity].
  - apply e in E1. subst. exact Hyz.
  - destruct (entry_compare y z) eqn:E2; [| |destruct Hyz; reflexivity].
    + apply e in E2. subst. rewrite E1. discriminate.
    + rewrite (t _ _ _ E1 E2). discriminate.
Qed.

#[global] Instance entry_le_antisym : AntiSymm (=) entry_le.
Proof.
  destruct entry_compare_order as [e r a t].
  intros x y. unfold entry_le. rewrite (a y x).
  destruct (entry_compare x y) eqn:E; simpl; intros H1 H2.
  - apply e, E.
  - destruct H2; reflexivity.
  - destruct H1; reflexivity.
Qed.

(** [sorted] does not depend on the order of its input. *)
Lemma sorted_permutation (l1 l2 : list entry) :
  l1 ≡ₚ l2 -> sorted l1 = sorted l2.
Proof.
  intros Hperm. unfold sorted.
  apply (Sorted_unique entry_le); try apply Sorted_merge_sort; try apply _.
  rewrite !merge_sort_Permutation. exact Hperm.
Qed.

Lemma serialize_loop_ok es : forall acc,
  forallb hex_ok es = true -> exists d, serialize_loop acc es = Ok d.
Proof.
  induction es as [|[[m n] h] es IH]; intros acc; simpl; [eauto|].
  unfold hex_ok at 1, fromhex. simpl.
  destruct (fromhex_opt h); [|discriminate]. simpl. apply IH.
Qed.

Lemma serialize_loop_raise es : forall acc,
  forallb hex_ok es = false -> serialize_loop acc es = Raise ValueError.
Proof.
  induction es as [|[[m n] h] es IH]; intros acc; simpl; [discriminate|].
  unfold hex_ok at 1, fromhex. simpl.
  destruct (fromhex_opt h); [|reflexivity]. simpl. apply IH.
Qed.

Lemma forallb_permutation {A} (p : A -> bool) l1 l2 :
  l1 ≡ₚ l2 -> forallb p l1 = forallb p l2.
Proof.
  induction 1; simpl; try congruence.
  destruct (p x), (p y); reflexivity.
Qed.

Lemma serialize_entries_ok es :
  forallb hex_ok es = true -> exists d, _serialize_entries es = Ok d.
Proof.
  intros Hes. apply serialize_loop_ok.
  rewrite (forallb_permutation _ _ es); [exact Hes|apply merge_sort_Permutation].
Qed.

Lemma serialize_entries_raise es :
  forallb hex_ok es = false -> _serialize_entries es = Raise ValueError.
Proof.
  intros Hes. apply serialize_loop_raise.
  rewrite (forallb_permutation _ _ es); [exact Hes|apply merge_sort_Permutation].
Qed.

Lemma serialize_entries_permutation l1 l2 :
  l1 ≡ₚ l2 -> _serialize_entries l1 = _serialize_entries l2.
Proof. intros Hp. unfold _serialize_entries. rewrite (sorted_permutation _ _ Hp). reflexivity. Qed.

Lemma Tree_init_empty_list : Tree_init [[]] = Ok empty_tree.
Proof. reflexivity. Qed.

Lemma build_tree_two (a b : entry) :
  build_tree [a; b]
  = (_ ← _serialize_entries [a];
     content ← _serialize_entries [a; b];
     Ok {| tree_obj := {| obj_type := "tree"; obj_content := CBytes content |};
           tree_entries := [a; b] |}).
Proof.
  unfold build_tree. rewrite Tree_init_empty_list.
  destruct a as [[m1 n1] h1], b as [[m2 n2] h2].
  cbn [for_each mbind result_bind fst snd]. unfold add_entry at 2.
  cbn [tree_entries empty_tree app]. unfold entry in *.
  destruct (_serialize_entries [(m1, n1, h1)]); [|reflexivity].
  cbn [mbind result_bind]. unfold add_entry. cbn [tree_entries app tree_obj obj_type].
  destruct (_serialize_entries _); reflexivity.
Qed.

(** What [hash] and [serialize] see of a tree built from two entries does
    not depend on which entry came first. *)
Lemma build_tree_pair_obj (a b : entry) :
  (t ← build_tree [a; b]; Ok (tree_obj t))
  = (t ← build_tree [b; a]; Ok (tree_obj t)).
Proof.
  rewrite !build_tree_two.
  assert (Hswap : _serialize_entries [a; b] = _serialize_entries [b; a])
    by (apply serialize_entries_permutation, Permutation_swap).
  destruct (hex_ok a) eqn:Ha, (hex_ok b) eqn:Hb.
  - destruct (serialize_entries_ok [a]) as [da Hda]; [simpl; rewrite Ha; reflexivity|].
    destruct (serialize_entries_ok [b]) as [db Hdb]; [simpl; rewrite Hb; reflexivity|].
    rewrite Hda, Hdb, Hswap. cbn [mbind result_bind].
    destruct (_serialize_entries [b; a]); reflexivity.
  - destruct (serialize_entries_ok [a]) as [da Hda]; [simpl; rewrite Ha; reflexivity|].
    rewrite Hda, (serialize_entries_raise [b]), (serialize_entries_raise [a; b])
      by (simpl; rewrite ?Ha, ?Hb; reflexivity).
    reflexivity.
  - destruct (serialize_entries_ok [b]) as [db Hdb]; [simpl; rewrite Hb; reflexivity|].
    rewrite Hdb, (serialize_entries_raise [a]), (serialize_entries_raise [b; a])
      by (simpl; rewrite ?Ha, ?Hb; reflexivity).
    reflexivity.
  - rewrite (serialize_entries_raise [a]), (serialize_entries_raise [b])
      by (simpl; rewrite ?Ha, ?Hb; reflexivity).
    reflexivity.
Qed.

Lemma build_tree_two_ok (a b : entry) :
  hex_ok a = true -> hex_ok b = true ->
  exists content,
    build_tree [a; b]
    = Ok {| tree_obj := {| obj_type := "tree"; obj_content := CBytes content |};
            tree_entries := [a; b] |}.
Proof.
  intros Ha Hb. rewrite build_tree_two.
  destruct (serialize_entries_ok [a]) as [da Hda]; [simpl; rewrite Ha; reflexivity|].
  destruct (serialize_entries_ok [a; b]) as [d Hd]; [simpl; rewrite Ha, Hb; reflexivity|].
  rewrite Hda, Hd. eauto.
Qed.

Lemma bind_obj {B} (r : result Tree) (k : GitObject -> result B) :
  (t ← r; k (tree_obj t)) = (o ← (t ← r; Ok (tree_obj t)); k o).
Proof. destruct r; reflexivity. Qed.

Section TreeClaims.
Context `{Zlib}.

(** C7: for every pair of tree entries [a] and [b], the tree built from
    [a] then [b] and the tree built from [b] then [a] have the same digest
    and the same serialized bytes; both exist when the two entry hashes
    are hexadecimal. *)
Theorem tree_digest_order_independent (a b : entry) :
  (t ← build_tree [a; b]; hash (tree_obj t))
    = (t ← build_tree [b; a]; hash (tree_obj t)) /\
  (t ← build_tree [a; b]; serialize (tree_obj t))
    = (t ← build_tree [b; a]; serialize (tree_obj t)) /\
  (hex_ok a = true -> hex_ok b = true ->
   exists digest data,
     (t ← build_tree [a; b]; hash (tree_obj t)) = Ok digest /\
     (t ← build_tree [a; b]; serialize (tree_obj t)) = Ok data).
Proof.
  repeat split.
  - rewrite !(bind_obj _ hash), build_tree_pair_obj. reflexivity.
  - rewrite !(bind_obj _ serialize), build_tree_pair_obj. reflexivity.
  - intros Ha Hb. destruct (build_tree_two_ok a b Ha Hb) as [content ->].
    cbn. eauto.
Qed.
End TreeClaims.

(** Passing the entries to the constructor instead leaves the list in
    [content], and [hash] cannot frame it. *)
Lemma Tree_init_entries_unhashable (a b : entry) :
  hex_ok a = true -> hex_ok b = true ->
  (t ← Tree_init [[a; b]]; hash (tree_obj t)) = Raise TypeError.
Proof.
  intros Ha Hb. unfold Tree_init.
  destruct (serialize_entries_ok [a; b]) as [d ->]; [simpl; rewrite Ha, Hb; reflexivity|].
  reflexivity.
Qed.

Lemma tree_digest_order_independent_witness :
  exists digest data,
    (t ← build_tree [entry_a; entry_b]; hash (tree_obj t)) = Ok digest /\
    (t ← build_tree [entry_b; entry_a]; hash (tree_obj t)) = Ok digest /\
    (t ← build_tree [entry_a; entry_b]; serialize (tree_obj t)) = Ok data /\
    (t ← build_tree [entry_b; entry_a]; serialize (tree_obj t)) = Ok data.
Proof.
  destruct (tree_digest_order_independent (H := stored_zlib) entry_a entry_b)
    as (Hh & Hs & Hok).
  destruct (Hok eq_refl eq_refl) as (digest & data & Hd & Hdata).
  exists digest, data. rewrite <- Hh, <- Hs. auto.
Defined.

(** ** Digests and the object store *)

Lemma str_split_at_app n s : str_take n s +:+ str_drop n s = s.
Proof.
  unfold str_take, str_drop. revert n.
  induction s as [|c s IH]; intros n; [reflexivity|]. simpl.
  destruct (is_cont c).
  - specialize (IH n). destruct (str_split_at n s) as [a b]. simpl in *.
    rewrite ?app_cons. congruence.
  - destruct n as [|n]; [reflexivity|].
    specialize (IH n). destruct (str_split_at n s) as [a b]. simpl in *.
    rewrite ?app_cons. congruence.
Qed.

Lemma py_len_take n s : py_len (str_take n s) = Nat.min n (py_len s).
Proof.
  unfold str_take. revert n.
  induction s as [|c s IH]; intros n; [simpl; lia|]. simpl.
  destruct (is_cont c) eqn:Ec.
  - specialize (IH n). destruct (str_split_at n s) as [a b]. simpl in *.
    rewrite Ec. exact IH.
  - destruct n as [|n]; [reflexivity|].
    specialize (IH n). destruct (str_split_at n s) as [a b]. simpl in *.
    rewrite Ec, IH. reflexivity.
Qed.

Lemma py_len_bucket h : (2 <= py_len h)%nat -> py_len (str_take 2 h) = 2%nat.
Proof. intros Hh. rewrite py_len_take. lia. Qed.

Lemma hex_digit_not_cont k : (0 <= k < 16)%Z -> is_cont (SHA1.hex_digit k) = false.
Proof.
  intros Hk.
  assert (Hcases : (k = 0 \/ k = 1 \/ k = 2 \/ k = 3 \/ k = 4 \/ k = 5 \/ k = 6
    \/ k = 7 \/ k = 8 \/ k = 9 \/ k = 10 \/ k = 11 \/ k = 12 \/ k = 13
    \/ k = 14 \/ k = 15)%Z) by lia.
  repeat (destruct Hcases as [->|Hcases]; [reflexivity|]). subst. reflexivity.
Qed.

Lemma nibble_not_cont w i : is_cont (SHA1.nibble w i) = false.
Proof.
  unfold SHA1.nibble. apply hex_digit_not_cont.
  change 15%Z with (Z.ones 4). rewrite Z.land_ones by lia.
  apply Z.mod_pos_bound. reflexivity.
Qed.

Lemma py_len_hex32 w tail : py_len (SHA1.hex32 w tail) = (8 + py_len tail)%nat.
Proof. unfold SHA1.hex32. cbn [py_len]. rewrite !nibble_not_cont. reflexivity. Qed.

(** A SHA-1 digest counts forty characters. *)
Lemma py_len_hexdigest msg : py_len (SHA1.hexdigest msg) = 40%nat.
Proof.
  unfold SHA1.hexdigest. destruct (SHA1.digest msg) as [[[[h0 h1] h2] h3] h4].
  rewrite !py_len_hex32. reflexivity.
Qed.

Lemma hash_bytes ty content :
  hash {| obj_type := ty; obj_content := CBytes content |} = Ok (digest ty content).
Proof. reflexivity. Qed.

Lemma hash_py_len o h : hash o = Ok h -> py_len h = 40%nat.
Proof.
  unfold hash, frame. destruct (obj_content o); [|discriminate].
  cbn. intros [= <-]. apply py_len_hexdigest.
Qed.

Lemma lookup_obj_set_objects o st b f :
  lookup_obj (set_objects o st) b f
  = match o !! b with Some (EDir files) => files !! f | _ => None end.
Proof. reflexivity. Qed.

Section StoreClaims.
Context `{Zlib}.

Lemma store_object_present obj st h :
  hash obj = Ok h ->
  obj_exists st h = true ->
  store_object obj st = Ok (h, st).
Proof.
  intros Hh Hex. unfold store_object. rewrite Hh. cbn [mbind result_bind].
  unfold obj_exists in Hex. rewrite Hex. reflexivity.
Qed.

Lemma store_object_absent ty content st :
  let obj := {| obj_type := ty; obj_content := CBytes content |} in
  let h := digest ty content in
  obj_exists st h = false ->
  (forall data, objects st !! str_take 2 h <> Some (EFile data)) ->
  store_object obj st
  = Ok (h, set_objects
             (<[str_take 2 h :=
                 EDir (<[str_drop 2 h := zlib_compress (header obj ++ content)]>
                        (match objects st !! str_take 2 h with
                         | Some (EDir files) => files
                         | _ => ∅
                         end))]> (objects st)) st).
Proof.
  intros obj h Hex Hfile. unfold store_object. subst obj. rewrite hash_bytes.
  cbn [mbind result_bind]. fold h. unfold obj_exists in Hex. rewrite Hex.
  unfold mkdir_exist_ok, serialize, frame, write_bytes.
  destruct (objects st !! str_take 2 h) as [[data|files]|] eqn:Eb.
  - destruct (Hfile data eq_refl).
  - cbn. rewrite Eb. reflexivity.
  - cbn. rewrite lookup_insert_eq. rewrite insert_insert_eq. reflexivity.
Qed.

(** C6: for every [(type, content)], on a store where the bucket name of
    the digest is not taken by a plain file, [store_object] returns the
    digest, a second call returns the same digest and leaves the store as
    the first call left it (the write is skipped), the object file exists,
    and on an empty store it is the only stored entry. *)
Theorem store_object_idempotent (ty : string) (content : list byte) (st : repo) :
  let obj := {| obj_type := ty; obj_content := CBytes content |} in
  let h := digest ty content in
  (forall data, objects st !! str_take 2 h <> Some (EFile data)) ->
  exists st1,
    store_object obj st = Ok (h, st1) /\
    store_object obj st1 = Ok (h, st1) /\
    obj_exists st1 h = true /\
    (objects st = ∅ -> all_digests st1 = [h]).
Proof.
  intros obj h Hfile.
  destruct (obj_exists st h) eqn:Hex.
  - exists st. rewrite (store_object_present obj st h) by (reflexivity || exact Hex).
    repeat split; try exact Hex.
    intros Hempty. unfold obj_exists, obj_file_exists, lookup_obj in Hex.
    rewrite Hempty, lookup_empty in Hex.
    apply bool_decide_eq_true in Hex. destruct Hex as [x Hx]. discriminate.
  - eexists. split; [apply store_object_absent; assumption|].
    assert (Hnow : forall o files data,
      obj_exists (set_objects (<[str_take 2 h :=
        EDir (<[str_drop 2 h := data]> files)]> o) st) h = true).
    { intros o files data. unfold obj_exists, obj_file_exists.
      rewrite lookup_obj_set_objects, lookup_insert_eq, lookup_insert_eq.
      apply bool_decide_eq_true. eauto. }
    split; [apply store_object_present; [reflexivity|apply Hnow]|].
    split; [apply Hnow|].
    intros Hempty. rewrite Hempty, lookup_empty, !insert_empty.
    unfold all_digests. cbn [objects set_objects].
    rewrite map_to_list_singleton. cbn [mbind list_bind fst snd bucket_digests].
    rewrite py_len_bucket
      by (unfold h, digest; rewrite py_len_hexdigest; lia).
    cbn [Nat.eqb]. rewrite map_to_list_singleton. cbn.
    rewrite str_split_at_app. reflexivity.
Qed.
End StoreClaims.

Lemma store_object_idempotent_witness :
  exists st1,
    store_object (Blob [x68; x69]) (staged []) = Ok (digest "blob" [x68; x69], st1) /\
    store_object (Blob [x68; x69]) st1 = Ok (digest "blob" [x68; x69], st1) /\
    all_digests st1 = [digest "blob" [x68; x69]].
Proof.
  destruct (store_object_idempotent (H := stored_zlib) "blob" [x68; x69] (staged []))
    as (st1 & H1 & H2 & _ & H4).
  - intros data. cbn [objects staged]. rewrite lookup_empty. discriminate.
  - exists st1. split; [exact H1|]. split; [exact H2|]. apply H4. reflexivity.
Defined.

(** ** The garbage collector *)

Lemma obj_exists_lookup st h :
  obj_exists st h = bool_decide (is_Some (lookup_obj st (str_take 2 h) (str_drop 2 h))).
Proof. reflexivity. Qed.

Lemma elem_of_all_digests st h :
  h ∈ all_digests st <->
  exists b f, h = b +:+ f /\ py_len b = 2%nat /\ is_Some (lookup_obj st b f).
Proof.
  unfold all_digests, lookup_obj. rewrite list_elem_of_bind. split.
  - intros ([b e] & Hh & Hbe). apply elem_of_map_to_list in Hbe.
    cbn [fst snd] in Hh. destruct e as [data|files]; cbn in Hh.
    { apply elem_of_nil in Hh. destruct Hh. }
    destruct (Nat.eqb_spec (py_len b) 2) as [Hb|_];
      [|apply elem_of_nil in Hh; destruct Hh].
    apply list_elem_of_fmap in Hh as ([f x] & -> & Hfx).
    apply elem_of_map_to_list in Hfx.
    exists b, f. rewrite Hbe. cbn. eauto.
  - intros (b & f & -> & Hb & x & Hx).
    destruct (objects st !! b) as [[data|files]|] eqn:Hbe; try discriminate.
    exists (b, EDir files). cbn [fst snd bucket_digests]. split.
    + rewrite Hb. cbn. apply list_elem_of_fmap. exists (f, x).
      split; [reflexivity|]. apply elem_of_map_to_list. exact Hx.
    + apply elem_of_map_to_list. exact Hbe.
Qed.

Section GcClaims.
Context `{Json}.

(** What one run of [gc] does to the object files, bucket by bucket. *)
Lemma gc_sweeps st kv :
  load_index st = PDict kv ->
  forallb hashable (map snd kv) = true ->
  exists st',
    gc st = Ok st' /\
    index_file st' = index_file st /\
    (forall b f, py_len b = 2%nat ->
       lookup_obj st' b f
       = if str_in (b +:+ f) (map snd kv) then lookup_obj st b f else None) /\
    (forall b, py_len b = 2%nat -> objects st' !! b <> Some (EDir ∅)) /\
    (forall b, py_len b <> 2%nat -> objects st' !! b = objects st !! b).
Proof.
  intros Hidx Hhash. unfold gc, py_values, py_set. rewrite Hidx.
  cbn [mbind result_bind]. rewrite Hhash. eexists. split; [reflexivity|].
  split; [reflexivity|]. cbn [objects set_objects]. repeat split.
  - intros b f Hb. rewrite lookup_obj_set_objects, map_lookup_imap.
    unfold lookup_obj.
    destruct (objects st !! b) as [[data|files]|]; cbn;
      [destruct (str_in _ _); reflexivity| |destruct (str_in _ _); reflexivity].
    rewrite Hb. cbn. destruct (decide _) as [Hempty|Hne].
    + destruct (str_in (b +:+ f) (map snd kv)) eqn:Hin; [|reflexivity].
      destruct (files !! f) as [x|] eqn:Hf; [|reflexivity].
      exfalso. eapply (map_filter_empty_not_lookup _ _ f x Hempty); eauto.
    + rewrite map_lookup_filter.
      destruct (files !! f) as [x|]; cbn; [|destruct (str_in _ _); reflexivity].
      case_guard as Hg; cbn [fst] in Hg; cbn.
      * rewrite Hg. reflexivity.
      * destruct (str_in (b +:+ f) (map snd kv)); [congruence|reflexivity].
  - intros b Hb. rewrite map_lookup_imap.
    destruct (objects st !! b) as [[data|files]|]; cbn; try discriminate.
    rewrite Hb. cbn. destruct (decide _) as [Hempty|Hne]; [discriminate|].
    intros [= Heq]. apply Hne, Heq.
  - intros b Hb. rewrite map_lookup_imap.
    destruct (objects st !! b) as [[data|files]|]; cbn; try reflexivity.
    destruct (Nat.eqb_spec (py_len b) 2); [contradiction|reflexivity].
Qed.

Lemma gc_ok_inv st st' :
  gc st = Ok st' ->
  exists kv, load_index st = PDict kv /\ forallb hashable (map snd kv) = true.
Proof.
  unfold gc, py_values, py_set.
  destruct (load_index st) as [| | | | | |kv]; try discriminate.
  cbn [mbind result_bind].
  destruct (forallb hashable (map snd kv)) eqn:E; [eauto|discriminate].
Qed.

Lemma load_index_same st st' :
  index_file st' = index_file st -> load_index st' = load_index st.
Proof. unfold load_index. intros ->. reflexivity. Qed.

(** After a run of [gc] that returns, every stored digest is a value of
    the index. *)
Lemma gc_leaves_referenced st st' :
  gc st = Ok st' ->
  Forall (fun h => str_in h (index_values st') = true) (all_digests st').
Proof.
  intros Hgc. destruct (gc_ok_inv _ _ Hgc) as (kv & Hidx & Hhash).
  destruct (gc_sweeps st kv Hidx Hhash) as (st2 & Hgc2 & Hfile & Hsweep & _).
  rewrite Hgc in Hgc2. injection Hgc2 as <-.
  apply Forall_forall. intros h (b & f & -> & Hb & x & Hx)%elem_of_all_digests.
  unfold index_values. rewrite (load_index_same _ _ Hfile), Hidx.
  rewrite (Hsweep b f Hb) in Hx.
  destruct (str_in (b +:+ f) (map snd kv)); [reflexivity|discriminate].
Qed.

(** C2: for every store and every index (a [dict] with hashable values),
    [gc] returns and, of the object files, deletes exactly those whose
    digest is not a value of the index: an object exists afterwards if and
    only if it existed and its digest is a value, and it keeps its bytes.
    So with [d1], [d2], [d3] stored and only [d1] a value, [d1] survives
    and [d2], [d3] are gone. No bucket is left empty. An object just
    stored whose digest is no value of the index, such as the tree built
    from the index, is removed. *)
Theorem gc_collects (st : repo) (kv : list (string * pyval)) :
  load_index st = PDict kv ->
  forallb hashable (map snd kv) = true ->
  exists st',
    gc st = Ok st' /\
    (forall h, (2 <= py_len h)%nat ->
       obj_exists st' h = obj_exists st h && str_in h (map snd kv)) /\
    (forall h, (2 <= py_len h)%nat -> str_in h (map snd kv) = true ->
       lookup_obj st' (str_take 2 h) (str_drop 2 h)
       = lookup_obj st (str_take 2 h) (str_drop 2 h)) /\
    (forall d1 d2 d3,
       (2 <= py_len d1)%nat -> (2 <= py_len d2)%nat -> (2 <= py_len d3)%nat ->
       obj_exists st d1 = true ->
       str_in d1 (map snd kv) = true ->
       str_in d2 (map snd kv) = false ->
       str_in d3 (map snd kv) = false ->
       obj_exists st' d1 = true /\ obj_exists st' d2 = false /\
       obj_exists st' d3 = false) /\
    (forall b, py_len b = 2%nat -> objects st' !! b <> Some (EDir ∅)) /\
    (forall (Z : Zlib) (t : Tree) (st0 : repo) (T : string),
       store_object (tree_obj t) st0 = Ok (T, st) ->
       str_in T (map snd kv) = false ->
       obj_exists st T = true /\ obj_exists st' T = false).
Proof.
  intros Hidx Hhash.
  destruct (gc_sweeps st kv Hidx Hhash) as (st' & Hgc & _ & Hsweep & Hempty & _).
  exists st'. split; [exact Hgc|].
  assert (Hex : forall h, (2 <= py_len h)%nat ->
    obj_exists st' h = obj_exists st h && str_in h (map snd kv)).
  { intros h Hh. rewrite !obj_exists_lookup, Hsweep by (apply py_len_bucket, Hh).
    rewrite str_split_at_app.
    destruct (str_in h (map snd kv)); [rewrite andb_true_r; reflexivity|].
    rewrite andb_false_r. apply bool_decide_eq_false. intros [x Hx]. discriminate. }
  split; [exact Hex|]. split.
  { intros h Hh Hin. rewrite Hsweep by (apply py_len_bucket, Hh).
    rewrite str_split_at_app, Hin. reflexivity. }
  split.
  { intros d1 d2 d3 H1 H2 H3 Hex1 Hin1 Hin2 Hin3.
    rewrite !Hex by assumption. rewrite Hex1, Hin1, Hin2, Hin3, !andb_false_r.
    auto. }
  split; [exact Hempty|].
  intros Z t st0 T Hstore HT.
  assert (HlenT : py_len T = 40%nat).
  { unfold store_object in Hstore.
    destruct (hash (tree_obj t)) as [h|] eqn:Hh; [|discriminate].
    cbn [mbind result_bind] in Hstore. apply hash_py_len in Hh.
    destruct (obj_file_exists st0 _ _); [congruence|].
    destruct (mkdir_exist_ok _ _); [|discriminate]. cbn [mbind result_bind] in Hstore.
    destruct (serialize _); [|discriminate]. cbn [mbind result_bind] in Hstore.
    destruct (write_bytes _ _ _ _); [|discriminate]. cbn in Hstore. congruence. }
  split; [|rewrite Hex, HT, andb_false_r by lia; reflexivity].
  unfold store_object in Hstore.
  destruct (hash (tree_obj t)) as [h|] eqn:Hh; [|discriminate].
  cbn [mbind result_bind] in Hstore.
  destruct (obj_file_exists st0 _ _) eqn:E0.
  { injection Hstore as <- <-. exact E0. }
  unfold mkdir_exist_ok, write_bytes in Hstore.
  destruct (serialize (tree_obj t)) as [data|]; 
    destruct (objects st0 !! str_take 2 h) as [[?|files]|] eqn:Eb;
    cbn in Hstore; rewrite ?Eb, ?lookup_insert_eq in Hstore; cbn in Hstore;
    try discriminate; injection Hstore as <- <-;
    unfold obj_exists, obj_file_exists;
    rewrite lookup_obj_set_objects, lookup_insert_eq, lookup_insert_eq;
    apply bool_decide_eq_true; eauto.
Qed.
End GcClaims.

Section AddClaims.
Context `{Zlib} `{Json}.

Lemma only_buckets_alt st :
  only_buckets st <->
  forall b e, objects st !! b = Some e ->
    py_len b = 2%nat /\ exists files, e = EDir files.
Proof.
  unfold only_buckets, map_Forall, is_bucket.
  split; intros Hst b e Hbe; specialize (Hst b e Hbe).
  - apply andb_true_iff in Hst as [Hlen He]. apply Nat.eqb_eq in Hlen.
    destruct e; [discriminate|eauto].
  - destruct Hst as (-> & files & ->). reflexivity.
Qed.

Lemma store_object_buckets obj st h st' :
  only_buckets st -> store_object obj st = Ok (h, st') -> only_buckets st'.
Proof.
  rewrite !only_buckets_alt. intros Hwf. unfold store_object.
  destruct (hash obj) as [obj_hash|] eqn:Hh; [|discriminate].
  cbn [mbind result_bind].
  destruct (obj_file_exists st _ _); [intros [= <- <-]; exact Hwf|].
  assert (Hlen : py_len (str_take 2 obj_hash) = 2%nat)
    by (apply py_len_bucket; rewrite (hash_py_len _ _ Hh); lia).
  unfold mkdir_exist_ok, write_bytes.
  destruct (serialize obj) as [data|];
    destruct (objects st !! str_take 2 obj_hash) as [[?|files]|] eqn:Eb;
    cbn; rewrite ?Eb, ?lookup_insert_eq; cbn; try discriminate;
    intros [= <- <-]; intros b e; cbn [objects set_objects];
    rewrite ?insert_insert_eq, lookup_insert;
    (case_decide as Hb; [intros [= <-]; subst b; eauto|apply Hwf]).
Qed.

Lemma gc_buckets st st' : only_buckets st -> gc st = Ok st' -> only_buckets st'.
Proof.
  rewrite !only_buckets_alt. intros Hwf. unfold gc.
  destruct (py_values _) as [values|]; [|discriminate]. cbn [mbind result_bind].
  destruct (py_set _) as [used|]; [|discriminate]. cbn [mbind result_bind].
  intros [= <-] b e. cbn [objects set_objects]. rewrite map_lookup_imap.
  destruct (objects st !! b) as [e0|] eqn:Eb; [|discriminate].
  destruct (Hwf b e0 Eb) as (Hlen & files & ->). cbn. rewrite Hlen. cbn.
  destruct (decide _); [discriminate|]. intros [= <-]. eauto.
Qed.

Lemma add_found_buckets acc f acc' :
  only_buckets acc.2 -> add_found acc f = Ok acc' -> only_buckets acc'.2.
Proof.
  destruct acc as [index st]. unfold add_found. cbn [snd].
  destruct (_ || _); [intros Hwf [= <-]; exact Hwf|].
  intros Hwf.
  destruct (store_object _ st) as [[blob_hash st1]|] eqn:Es; [|discriminate].
  cbn [mbind result_bind].
  destruct (ff_rel f); [|discriminate]. cbn [mbind result_bind].
  destruct (py_setitem _ _ _); [|discriminate]. cbn.
  intros [= <-]. eapply store_object_buckets; eauto.
Qed.

Lemma for_each_add_found_buckets found : forall acc acc',
  only_buckets acc.2 -> for_each add_found acc found = Ok acc' ->
  only_buckets acc'.2.
Proof.
  induction found as [|f found IH]; intros acc acc' Hwf; simpl.
  - intros [= <-]. exact Hwf.
  - destruct (add_found acc f) as [acc1|] eqn:E; [|discriminate].
    cbn [mbind result_bind]. apply IH. eapply add_found_buckets; eauto.
Qed.

Lemma add_file_ends_with_gc path st st' :
  add_file path st = Ok st' ->
  exists st2, gc st2 = Ok st' /\ (only_buckets st -> only_buckets st2).
Proof.
  unfold add_file. destruct (worktree st !! path) as [[content|found]|];
    try discriminate.
  cbn [mbind result_bind].
  destruct (store_object _ st) as [[blob_hash st1]|] eqn:Es; [|discriminate].
  cbn [mbind result_bind].
  destruct (py_setitem _ _ _) as [index|]; [|discriminate].
  cbn [mbind result_bind]. intros Hgc. eexists. split; [exact Hgc|].
  intros Hwf. exact (store_object_buckets _ _ _ _ Hwf Es).
Qed.

Lemma add_directory_ends_with_gc path st st' :
  add_directory path st = Ok st' ->
  exists st2, gc st2 = Ok st' /\ (only_buckets st -> only_buckets st2).
Proof.
  unfold add_directory. destruct (worktree st !! path) as [[content|found]|];
    try discriminate.
  destruct (for_each add_found _ found) as [[index st1]|] eqn:Ef; [|discriminate].
  cbn [mbind result_bind]. intros Hgc. eexists. split; [exact Hgc|].
  intros Hwf.
  exact (for_each_add_found_buckets found (load_index st, st) (index, st1) Hwf Ef).
Qed.

(** C10: after every [add_file] or [add_directory] that returns, the
    digest of every object file left in the store is a value of the
    staging index. When [objects] held nothing but two-character bucket
    directories before, as after [init] and any number of [store_object],
    it still does, so that these object files are all the files under
    [objects]. *)
Theorem add_leaves_only_referenced (path : string) (st st' : repo) :
  add_file path st = Ok st' \/ add_directory path st = Ok st' ->
  Forall (fun h => str_in h (index_values st') = true) (all_digests st') /\
  (only_buckets st ->
   only_buckets st' /\
   forall b e, objects st' !! b = Some e ->
     exists files, e = EDir files /\
       forall f, is_Some (files !! f) ->
         str_in (b +:+ f) (index_values st') = true).
Proof.
  intros Hadd.
  assert (Hgc : exists st2, gc st2 = Ok st' /\ (only_buckets st -> only_buckets st2)).
  { destruct Hadd as [Hadd|Hadd];
      [exact (add_file_ends_with_gc _ _ _ Hadd)
      |exact (add_directory_ends_with_gc _ _ _ Hadd)]. }
  destruct Hgc as (st2 & Hgc & Hwf2).
  pose proof (gc_leaves_referenced st2 st' Hgc) as Hall.
  split; [exact Hall|]. intros Hwf.
  assert (Hwf' : only_buckets st') by exact (gc_buckets st2 st' (Hwf2 Hwf) Hgc).
  split; [exact Hwf'|]. intros b e Hbe.
  destruct (proj1 (only_buckets_alt st') Hwf' b e Hbe) as (Hlen & files & ->).
  exists files.
  split; [reflexivity|]. intros f Hf.
  rewrite Forall_forall in Hall. apply Hall, elem_of_all_digests.
  exists b, f. unfold lookup_obj. rewrite Hbe. auto.
Qed.
End AddClaims.

Section IndexClaims.
Context `{Json}.

(** C9: [load_index] returns an empty mapping when the index file does not
    exist and when its text does not parse; otherwise it returns what the
    text parses to, which for a file written by [save_index] is the saved
    mapping. *)
Theorem load_index_cases :
  (forall st, index_file st = None -> load_index st = PDict []) /\
  (forall st txt, index_file st = Some txt -> json_loads txt = None ->
     load_index st = PDict []) /\
  (forall st txt v, index_file st = Some txt -> json_loads txt = Some v ->
     load_index st = v) /\
  (forall st (m : list (string * string)), NoDup (map fst m) ->
     load_index (save_index (index_dict m) st) = index_dict m).
Proof.
  unfold load_index. repeat split.
  - intros st ->. reflexivity.
  - intros st txt -> ->. reflexivity.
  - intros st txt v -> ->. reflexivity.
  - intros st m Hm. cbn [save_index set_index_file index_file].
    rewrite json_roundtrip by exact Hm. reflexivity.
Qed.
End IndexClaims.

(** ** The tree builder *)

Lemma for_each_raise {A S} (P : exn -> Prop) (body : S -> A -> result S) l :
  (forall s x e, body s x = Raise e -> P e) ->
  forall s e, for_each body s l = Raise e -> P e.
Proof.
  intros Hbody. induction l as [|x l IH]; intros s e; [discriminate|]. simpl.
  destruct (body s x) as [s'|e'] eqn:E; cbn.
  - apply IH.
  - intros [= <-]. eapply Hbody, E.
Qed.

Section TreeBuilder.
Context `{Zlib} `{Json}.

Lemma insert_nested_step kv part part' rest' v :
  insert_nested (PDict kv) (part :: part' :: rest') v
  = (let kv := if dict_has part kv then kv else dict_set part (PDict []) kv in
     match dict_get part kv with
     | Some sub =>
       sub ← insert_nested sub (part' :: rest') v;
       Ok (PDict (dict_set part sub kv))
     | None => Ok (PDict kv)
     end).
Proof. reflexivity. Qed.

Lemma insert_nested_raise rest : forall curr v e,
  insert_nested curr rest v = Raise e -> e = TypeError.
Proof.
  induction rest as [|part rest IH]; intros curr v e; [discriminate|].
  destruct rest as [|part' rest'].
  - destruct curr; cbn; congruence.
  - destruct curr as [| | | | | |kv]; try (cbn; congruence).
    rewrite insert_nested_step. cbv zeta.
    destruct (dict_get part _) as [sub|]; [|discriminate].
    destruct (insert_nested sub (part' :: rest') v) as [x|e'] eqn:E; cbn.
    + discriminate.
    + intros [= <-]. eapply IH, E.
Qed.

Lemma group_entry_raise acc item e :
  group_entry acc item = Raise e -> e = TypeError.
Proof.
  destruct acc as [dirs files], item as [file_path blob_hash]. unfold group_entry.
  destruct (split "/" file_path) as [|p0 [|p1 rest]]; try discriminate.
  destruct (dict_get p0 _) as [curr|]; [|discriminate].
  destruct (insert_nested curr (p1 :: rest) blob_hash) as [x|e'] eqn:E; cbn.
  - discriminate.
  - intros [= <-]. eapply insert_nested_raise, E.
Qed.

Lemma root_entry_raise acc key e :
  root_entry acc key = Raise e -> e = ValueError.
Proof.
  unfold root_entry, unpack2. destruct (py_len key =? 2)%nat; cbn.
  - destruct (str_split_at 1 key). discriminate.
  - congruence.
Qed.

Lemma create_tree_recursive_raises v st :
  create_tree_recursive v st = Raise TypeError.
Proof. destruct v; reflexivity. Qed.

(** [create_tree_from_index] returns for no repository: every path through
    it ends in a call [Tree()], unless an earlier statement raises. *)
Lemma create_tree_from_index_raises st :
  create_tree_from_index st = Raise TypeError \/
  create_tree_from_index st = Raise ValueError \/
  create_tree_from_index st = Raise AttributeError.
Proof.
  unfold create_tree_from_index.
  destruct (negb (truthy (load_index st))); [left; reflexivity|].
  destruct (py_items (load_index st)) as [items|e] eqn:Eitems; cbn.
  2:{ right; right. destruct (load_index st); try discriminate;
      injection Eitems as <-; reflexivity. }
  unfold group_index.
  destruct (for_each group_entry ([], []) items) as [[dirs files]|e] eqn:Eg; cbn.
  2:{ left. f_equal.
      exact (for_each_raise (fun e => e = TypeError) _ _ group_entry_raise _ _ Eg). }
  destruct (for_each root_entry files (map fst dirs)) as [root|e] eqn:Er; cbn.
  2:{ right; left. f_equal.
      exact (for_each_raise (fun e => e = ValueError) _ _ root_entry_raise _ _ Er). }
  left. reflexivity.
Qed.

(** C1: with the index [{"a.txt": d1, "dir/b.txt": d2}],
    [create_tree_from_index] returns no digest: [for dir_name, dir_contents in dirs] unpacks the key ["dir"],
    three characters, into two names and raises [ValueError]. *)
Theorem create_tree_from_index_two_entries (st : repo) (d1 d2 : string) :
  load_index st = index_dict [("a.txt", d1); ("dir/b.txt", d2)] ->
  create_tree_from_index st = Raise ValueError.
Proof. intros Hidx. unfold create_tree_from_index. rewrite Hidx. reflexivity. Qed.

(** C3: with an empty index, [create_tree_from_index] stores nothing and
    returns no digest: [Tree()] lacks the argument [entries] and raises
    [TypeError]. *)
Theorem create_tree_from_index_empty (st : repo) :
  load_index st = PDict [] ->
  create_tree_from_index st = Raise TypeError.
Proof. intros Hidx. unfold create_tree_from_index. rewrite Hidx. reflexivity. Qed.

Lemma insert_nested_fresh rest v :
  rest <> [] ->
  exists x, insert_nested (PDict []) rest v = Ok x /\ nested_get x rest = Some v.
Proof.
  induction rest as [|part rest IH]; intros Hne; [congruence|].
  destruct rest as [|part' rest'].
  - eexists. split; [reflexivity|]. cbn. rewrite String.eqb_refl. reflexivity.
  - destruct IH as (x & Hx & Hget); [discriminate|].
    exists (PDict [(part, x)]). rewrite insert_nested_step.
    cbv zeta. cbn [dict_has dict_get dict_set].
    rewrite String.eqb_refl, Hx. cbn [mbind result_bind dict_set].
    split; [reflexivity|].
    cbn [nested_get dict_get]. rewrite String.eqb_refl. exact Hget.
Qed.

Lemma dict_get_set {V} k (v : V) kv : dict_get k (dict_set k v kv) = Some v.
Proof.
  induction kv as [|[k' v'] kv IH]; simpl.
  - rewrite String.eqb_refl. reflexivity.
  - destruct (String.eqb k' k) eqn:E; simpl; rewrite E; [reflexivity|exact IH].
Qed.

Lemma dict_get_ensured k kv :
  dict_get k (if dict_has k kv then kv else dict_set k (PDict []) kv) <> None.
Proof.
  unfold dict_has. destruct (dict_get k kv) eqn:E.
  - rewrite E. discriminate.
  - rewrite dict_get_set. discriminate.
Qed.

Lemma nested_get_step kv part rest :
  nested_get (PDict kv) (part :: rest)
  = match dict_get part kv with
    | Some sub => nested_get sub rest
    | None => None
    end.
Proof. reflexivity. Qed.

(** What [insert_nested] returns holds the blob under the segments it
    walked. *)
Lemma insert_nested_get rest : forall curr v x,
  rest <> [] ->
  insert_nested curr rest v = Ok x -> nested_get x rest = Some v.
Proof.
  induction rest as [|part rest IH]; intros curr v x Hne; [congruence|].
  destruct rest as [|part' rest'].
  - destruct curr as [| | | | | |kv]; try discriminate. cbn.
    intros [= <-]. rewrite dict_get_set. reflexivity.
  - destruct curr as [| | | | | |kv]; try discriminate.
    rewrite insert_nested_step. cbv zeta.
    pose proof (dict_get_ensured part kv) as Hsome.
    destruct (dict_get part _) as [sub|]; [|congruence].
    destruct (insert_nested sub (part' :: rest') v) as [sub'|] eqn:E;
      [|discriminate].
    cbn [mbind result_bind]. intros [= <-].
    rewrite nested_get_step, dict_get_set. eapply IH; [discriminate|exact E].
Qed.

Lemma group_entry_get dirs files file_path blob_hash dirs' files' :
  group_entry (dirs, files) (file_path, blob_hash) = Ok (dirs', files') ->
  grouped_get dirs' files' (split "/" file_path) = Some blob_hash.
Proof.
  unfold group_entry. pose proof (split_nonempty "/" file_path) as Hne.
  destruct (split "/" file_path) as [|p0 [|p1 rest]]; [congruence| |].
  - intros [= <- <-]. cbn. apply dict_get_set.
  - pose proof (dict_get_ensured p0 dirs) as Hsome.
    destruct (dict_get p0 _) as [curr|]; [|congruence].
    destruct (insert_nested curr (p1 :: rest) blob_hash) as [curr'|] eqn:E;
      [|discriminate].
    cbn [mbind result_bind]. intros [= <- <-].
    unfold grouped_get. rewrite nested_get_step, dict_get_set.
    eapply insert_nested_get; [discriminate|exact E].
Qed.

Lemma for_each_snoc {A S} (body : S -> A -> result S) l x : forall s,
  for_each body s (l ++ [x]) = (s' ← for_each body s l; body s' x).
Proof.
  induction l as [|y l IH]; intros s; simpl.
  - destruct (body s x); reflexivity.
  - destruct (body s y); cbn; [apply IH|reflexivity].
Qed.

(** C8 (amended): the tree builder checks no path. Whatever the path,
    empty segments included, the grouping of lines 286 to 307 splits it at
    every slash and files the blob under exactly these segments, an empty
    segment being kept as an empty key: this always succeeds on a path
    staged alone, and holds for the path grouped last whenever the grouping
    of an index returns. No run of the builder raises [InvalidPath]. *)
Theorem group_index_keeps_every_segment :
  (forall (file_path : string) (blob_hash : pyval),
     exists dirs files,
       group_index [(file_path, blob_hash)] = Ok (dirs, files) /\
       grouped_get dirs files (split "/" file_path) = Some blob_hash) /\
  (forall items (file_path : string) (blob_hash : pyval) dirs files,
     group_index (items ++ [(file_path, blob_hash)]) = Ok (dirs, files) ->
     grouped_get dirs files (split "/" file_path) = Some blob_hash) /\
  (forall st, create_tree_from_index st <> Raise InvalidPath).
Proof.
  split; [|split].
  - intros file_path blob_hash. unfold group_index. cbn [for_each group_entry].
    pose proof (split_nonempty "/" file_path) as Hne.
    destruct (split "/" file_path) as [|p0 [|p1 rest]]; [congruence| |].
    + eexists _, _. split; [reflexivity|]. cbn. rewrite String.eqb_refl. reflexivity.
    + cbn [dict_has dict_get dict_set]. rewrite String.eqb_refl.
      destruct (insert_nested_fresh (p1 :: rest) blob_hash) as (x & Hx & Hget);
        [discriminate|].
      rewrite Hx. cbn [mbind result_bind].
      eexists _, _. split; [reflexivity|].
      cbn [grouped_get nested_get dict_get]. rewrite String.eqb_refl. exact Hget.
  - intros items file_path blob_hash dirs files. unfold group_index.
    rewrite for_each_snoc.
    destruct (for_each group_entry ([], []) items) as [[dirs0 files0]|];
      [|discriminate].
    cbn [mbind result_bind]. apply group_entry_get.
  - intros st. destruct (create_tree_from_index_raises st) as [->|[->| ->]];
      discriminate.
Qed.
End TreeBuilder.

(** ** Closed runs *)

Example d_one_value : d_one = "43dd47ea691c90a5fa7827892c70241913351963".
Proof. vm_compute. reflexivity. Qed.

Lemma gc_collects_witness :
  exists st',
    gc with_tree = Ok st' /\
    obj_exists st' d_one = true /\
    obj_exists st' d_two = false /\
    obj_exists st' d_three = false /\
    obj_exists with_tree d_tree = true /\
    obj_exists st' d_tree = false /\
    all_digests st' = [d_one].
Proof.
  destruct (gc_collects with_tree [("a.txt", PStr d_one)])
    as (st' & Hgc & _ & _ & Hblobs & _ & Htree).
  - vm_compute. reflexivity.
  - reflexivity.
  - exists st'.
    destruct (Hblobs d_one d_two d_three) as (H1 & H2 & H3);
      try (vm_compute; reflexivity); try (vm_compute; lia).
    destruct (Htree stored_zlib
                {| tree_obj := demo_tree; tree_entries := [] |} three_blobs d_tree)
      as (H4 & H5); try (vm_compute; reflexivity).
    repeat (split; [assumption|]).
    assert (Hst : Ok st' = gc with_tree) by (symmetry; exact Hgc).
    vm_compute in Hst. injection Hst as ->. vm_compute. reflexivity.
Defined.

Lemma only_buckets_before_add : only_buckets before_add.
Proof. unfold only_buckets. apply (bool_decide_unpack _). vm_compute. exact I. Qed.

Lemma add_leaves_only_referenced_witness :
  exists st1 st2,
    add_file "b.txt" before_add = Ok st1 /\
    add_directory "src" before_add = Ok st2 /\
    Forall (fun h => str_in h (index_values st1) = true) (all_digests st1) /\
    Forall (fun h => str_in h (index_values st2) = true) (all_digests st2) /\
    only_buckets st1 /\ only_buckets st2.
Proof.
  destruct (add_file "b.txt" before_add) as [st1|] eqn:E1; [|vm_compute in E1; discriminate].
  destruct (add_directory "src" before_add) as [st2|] eqn:E2; [|vm_compute in E2; discriminate].
  destruct (add_leaves_only_referenced "b.txt" before_add st1 (or_introl E1))
    as (Hall1 & Hwf1).
  destruct (add_leaves_only_referenced "src" before_add st2 (or_intror E2))
    as (Hall2 & Hwf2).
  exists st1, st2. repeat (split; [assumption || reflexivity|]).
  split; [apply Hwf1|apply Hwf2]; exact only_buckets_before_add.
Defined.

Lemma load_index_cases_witness :
  load_index (staged [("a.txt", d_one)]) = index_dict [("a.txt", d_one)] /\
  load_index {| index_file := None; objects := ∅; worktree := ∅ |} = PDict [] /\
  load_index {| index_file := Some "{"; objects := ∅; worktree := ∅ |} = PDict [].
Proof.
  destruct (load_index_cases (H := flat_json)) as (Hnone & Hbad & _ & Hsaved).
  split; [|split].
  - apply (Hsaved (staged []) [("a.txt", d_one)]). repeat constructor. set_solver.
  - apply Hnone. reflexivity.
  - apply (Hbad _ "{"); reflexivity.
Defined.

Lemma create_tree_from_index_two_entries_witness :
  create_tree_from_index (staged [("a.txt", d_one); ("dir/b.txt", d_two)])
  = Raise ValueError.
Proof.
  apply (create_tree_from_index_two_entries _ d_one d_two).
  vm_compute. reflexivity.
Defined.

Lemma create_tree_from_index_empty_witness :
  create_tree_from_index (staged []) = Raise TypeError.
Proof. apply create_tree_from_index_empty. reflexivity. Defined.

Lemma group_index_keeps_every_segment_witness :
  grouped_get [("x", PDict [("", PStr d_two)])] [("a.txt", PStr d_one)]
    (split "/" "x/") = Some (PStr d_two).
Proof.
  apply (proj1 (proj2 (group_index_keeps_every_segment (H := stored_zlib)
                         (H0 := flat_json)))
           [("a.txt", PStr d_one)] "x/" (PStr d_two)).
  reflexivity.
Defined.

(** The path ["a//b"] is grouped under the keys ["a"], [""], ["b"], and the
    run then ends in the [ValueError] of the unpacking of ["a"], as it does
    for ["a/b"]: the path is not rejected, and no [InvalidPath] is raised. *)
Lemma empty_segment_not_rejected :
  group_index [("a//b", PStr d_one)]
    = Ok ([("a", PDict [("", PDict [("b", PStr d_one)])])], []) /\
  create_tree_from_index (staged [("a//b", d_one)]) = Raise ValueError /\
  create_tree_from_index (staged [("a/b", d_one)]) = Raise ValueError /\
  create_tree_from_index (staged [("a//b", d_one)]) <> Raise InvalidPath.
Proof.
  split; [reflexivity|].
  assert (H1 : create_tree_from_index (staged [("a//b", d_one)]) = Raise ValueError)
    by (vm_compute; reflexivity).
  split; [exact H1|]. split; [vm_compute; reflexivity|].
  rewrite H1. discriminate.
Qed.

(** * Further properties *)

(** ** The object store *)

Lemma lookup_obj_insert st b files b' f :
  lookup_obj (set_objects (<[b := EDir files]> (objects st)) st) b' f
  = if decide (b = b') then files !! f else lookup_obj st b' f.
Proof.
  rewrite lookup_obj_set_objects, lookup_insert. unfold lookup_obj.
  case_decide; reflexivity.
Qed.

Section StoreProperties.
Context `{Zlib}.

(** The two ways [store_object] returns. *)
Lemma store_object_cases obj st h st' :
  store_object obj st = Ok (h, st') ->
  hash obj = Ok h /\
  ((obj_exists st h = true /\ st' = st) \/
   (obj_exists st h = false /\
    exists framed files,
      frame obj = Ok framed /\
      (objects st !! str_take 2 h = None /\ files = ∅ \/
       objects st !! str_take 2 h = Some (EDir files)) /\
      st' = set_objects
              (<[str_take 2 h :=
                  EDir (<[str_drop 2 h := zlib_compress framed]> files)]>
                 (objects st)) st)).
Proof.
  unfold store_object. destruct (hash obj) as [obj_hash|] eqn:Hh; [|discriminate].
  cbn [mbind result_bind]. fold (obj_exists st obj_hash).
  destruct (obj_exists st obj_hash) eqn:Hex.
  - intros [= <- <-]. auto.
  - unfold mkdir_exist_ok, write_bytes, serialize.
    destruct (frame obj) as [framed|] eqn:Hf;
      destruct (objects st !! str_take 2 obj_hash) as [[?|files]|] eqn:Eb;
      cbn; rewrite ?Eb, ?lookup_insert_eq; cbn; try discriminate;
      intros [= <- <-]; (split; [reflexivity|]); right; (split; [exact Hex|]).
    + exists framed, files. auto.
    + exists framed, ∅. rewrite insert_insert_eq. auto.
Qed.

Lemma store_object_effect (obj : GitObject) (st st' : repo) (h : string) :
  store_object obj st = Ok (h, st') ->
  (forall b f data, lookup_obj st b f = Some data ->
     lookup_obj st' b f = Some data) /\
  (forall b f, (b, f) <> (str_take 2 h, str_drop 2 h) ->
     lookup_obj st' b f = lookup_obj st b f) /\
  obj_exists st' h = true /\
  index_file st' = index_file st /\ worktree st' = worktree st.
Proof.
  intros Hs. destruct (store_object_cases _ _ _ _ Hs) as (Hh & [(Hex & ->)|Hnew]).
  { repeat split; auto. }
  destruct Hnew as (Hex & framed & files & Hf & Hfiles & ->).
  assert (Hold : forall f, lookup_obj st (str_take 2 h) f = files !! f).
  { intros f. unfold lookup_obj.
    destruct Hfiles as [(-> & ->)| ->]; [rewrite lookup_empty|]; reflexivity. }
  repeat split; try reflexivity.
  - intros b f data Hd. rewrite lookup_obj_insert. case_decide as Hb; [|exact Hd].
    subst b. rewrite Hold in Hd. rewrite lookup_insert. case_decide as Hfe; [|exact Hd].
    subst f. unfold obj_exists, obj_file_exists in Hex. rewrite Hold, Hd in Hex.
    apply bool_decide_eq_false in Hex. destruct Hex. eauto.
  - intros b f Hne. rewrite lookup_obj_insert. case_decide as Hb; [|reflexivity].
    subst b. rewrite lookup_insert_ne, Hold; [reflexivity|]. congruence.
  - unfold obj_exists, obj_file_exists. rewrite lookup_obj_insert, decide_True by reflexivity.
    rewrite lookup_insert_eq. apply bool_decide_eq_true. eauto.
Qed.

(** X1 [store_object] is write-once: when it returns, every object file that
    was there is still there with the same bytes, no path but the one of
    the returned digest has changed, the object file of the digest exists,
    and the index file and the working tree are untouched. *)
Theorem store_object_write_once (obj : GitObject) (st st' : repo) (h : string) :
  store_object obj st = Ok (h, st') ->
  (forall b f data, lookup_obj st b f = Some data ->
     lookup_obj st' b f = Some data) /\
  (forall b f, (b, f) <> (str_take 2 h, str_drop 2 h) ->
     lookup_obj st' b f = lookup_obj st b f) /\
  obj_exists st' h = true /\
  index_file st' = index_file st /\ worktree st' = worktree st.
Proof. apply store_object_effect. Qed.
End StoreProperties.

(** ** More on the garbage collector *)

Section GcProperties.
Context `{Json}.

Lemma gc_result st st' :
  gc st = Ok st' ->
  exists kv,
    load_index st = PDict kv /\
    forallb hashable (map snd kv) = true /\
    st' = set_objects (map_imap (sweep (map snd kv)) (objects st)) st.
Proof.
  intros Hgc. destruct (gc_ok_inv _ _ Hgc) as (kv & Hidx & Hhash).
  exists kv. split; [exact Hidx|]. split; [exact Hhash|].
  unfold gc, py_values, py_set in Hgc. rewrite Hidx in Hgc.
  cbn [mbind result_bind] in Hgc. rewrite Hhash in Hgc. cbn in Hgc. congruence.
Qed.

(** What [sweep] leaves of an entry is the entry itself or, for a bucket, a
    non-empty part of it. *)
Lemma sweep_some used b e e' :
  sweep used b e = Some e' ->
  e' = e \/
  exists files,
    e = EDir files /\ py_len b = 2%nat /\
    e' = EDir (filter (fun fd => str_in (b +:+ fd.1) used = true) files) /\
    filter (fun fd => str_in (b +:+ fd.1) used = true) files <> ∅.
Proof.
  unfold sweep. destruct e as [data|files]; [intros [= <-]; auto|].
  destruct (Nat.eqb_spec (py_len b) 2) as [Hb|_]; [|intros [= <-]; auto].
  destruct (decide _) as [|Hne]; [discriminate|]. intros [= <-]. right. eauto.
Qed.

Lemma sweep_idempotent used b e e' :
  sweep used b e = Some e' -> sweep used b e' = Some e'.
Proof.
  intros Hs. destruct (sweep_some _ _ _ _ Hs) as [->|(files & -> & Hb & -> & Hne)];
    [exact Hs|].
  unfold sweep. rewrite Hb. cbn.
  rewrite (map_filter_id _ (filter _ files)).
  - destruct (decide _); [contradiction|reflexivity].
  - intros f x Hfx. apply map_lookup_filter_Some in Hfx. apply Hfx.
Qed.

Lemma gc_effect (st st' : repo) :
  gc st = Ok st' ->
  (forall b f data, lookup_obj st' b f = Some data ->
     lookup_obj st b f = Some data) /\
  (forall b, py_len b <> 2%nat -> objects st' !! b = objects st !! b) /\
  (forall b data, objects st !! b = Some (EFile data) ->
     objects st' !! b = Some (EFile data)) /\
  index_file st' = index_file st /\ worktree st' = worktree st.
Proof.
  intros Hgc. destruct (gc_result _ _ Hgc) as (kv & Hidx & Hhash & ->).
  repeat split.
  - intros b f data. rewrite lookup_obj_set_objects, map_lookup_imap.
    unfold lookup_obj. destruct (objects st !! b) as [e|]; [|discriminate]. cbn.
    destruct (sweep (map snd kv) b e) as [e'|] eqn:Hs; [|discriminate].
    destruct (sweep_some _ _ _ _ Hs) as [->|(files & -> & _ & -> & _)]; [auto|].
    intros Hf. apply map_lookup_filter_Some in Hf. apply Hf.
  - intros b Hb. cbn [objects set_objects]. rewrite map_lookup_imap.
    destruct (objects st !! b) as [[data|files]|]; cbn; try reflexivity.
    destruct (Nat.eqb_spec (py_len b) 2); [contradiction|reflexivity].
  - intros b data Hb. cbn [objects set_objects].
    rewrite map_lookup_imap, Hb. reflexivity.
Qed.

Lemma gc_twice (st st' : repo) :
  gc st = Ok st' -> gc st' = Ok st'.
Proof.
  intros Hgc. destruct (gc_result _ _ Hgc) as (kv & Hidx & Hhash & ->).
  unfold gc, py_values, py_set.
  change (load_index (set_objects _ st)) with (load_index st). rewrite Hidx.
  cbn [mbind result_bind]. rewrite Hhash.
  assert (Hfix : map_imap (sweep (map snd kv))
                   (map_imap (sweep (map snd kv)) (objects st))
                 = map_imap (sweep (map snd kv)) (objects st)).
  { apply map_eq. intros b. rewrite !map_lookup_imap.
    destruct (objects st !! b) as [e|]; [|reflexivity]. cbn.
    destruct (sweep (map snd kv) b e) as [e'|] eqn:Hs; [|reflexivity]. cbn.
    exact (sweep_idempotent _ _ _ _ Hs). }
  unfold set_objects. cbn [index_file objects worktree mbind result_bind].
  rewrite Hfix. reflexivity.
Qed.

(** X2 [gc] only deletes. When it returns, every object file that is left
    was there before with the same bytes; entries of [objects] that are
    plain files or whose name is not two characters long are as they were;
    the index file and the working tree are untouched. *)
Theorem gc_only_deletes (st st' : repo) :
  gc st = Ok st' ->
  (forall b f data, lookup_obj st' b f = Some data ->
     lookup_obj st b f = Some data) /\
  (forall b, py_len b <> 2%nat -> objects st' !! b = objects st !! b) /\
  (forall b data, objects st !! b = Some (EFile data) ->
     objects st' !! b = Some (EFile data)) /\
  index_file st' = index_file st /\ worktree st' = worktree st.
Proof. apply gc_effect. Qed.

(** X3 [gc] is idempotent: a second run right after a run that returned
    returns the same repository, deleting nothing more. *)
Theorem gc_idempotent (st st' : repo) :
  gc st = Ok st' -> gc st' = Ok st'.
Proof. apply gc_twice. Qed.

(** X4 With no usable index, [gc] empties the store: when the index file is
    missing, does not parse, or holds an empty mapping, [gc] returns and no
    object file and no two-character bucket is left. *)
Theorem gc_without_index_deletes_all (st : repo) :
  index_file st = None \/
  (exists txt, index_file st = Some txt /\
     (json_loads txt = None \/ json_loads txt = Some (PDict []))) ->
  exists st',
    gc st = Ok st' /\
    all_digests st' = [] /\
    (forall h, (2 <= py_len h)%nat -> obj_exists st' h = false) /\
    (forall b files, py_len b = 2%nat -> objects st' !! b <> Some (EDir files)).
Proof.
  intros Hidx.
  assert (Hload : load_index st = PDict []).
  { unfold load_index. destruct Hidx as [->|(txt & -> & [->| ->])]; reflexivity. }
  destruct (gc_sweeps st [] Hload eq_refl) as (st' & Hgc & _ & Hsweep & Hne & _).
  exists st'. split; [exact Hgc|].
  assert (Hnone : forall b f, py_len b = 2%nat -> lookup_obj st' b f = None).
  { intros b f Hb. rewrite (Hsweep b f Hb). reflexivity. }
  repeat split.
  - apply elem_of_nil_inv. intros h (b & f & -> & Hb & x & Hx)%elem_of_all_digests.
    rewrite Hnone in Hx by exact Hb. discriminate.
  - intros h Hh. unfold obj_exists, obj_file_exists.
    rewrite Hnone by (apply py_len_bucket, Hh).
    apply bool_decide_eq_false. intros [x Hx]. discriminate.
  - intros b files Hb Hbf.
    destruct (map_choose_or_empty files) as [(f & x & Hfx)| ->].
    + specialize (Hnone b f Hb). unfold lookup_obj in Hnone.
      rewrite Hbf, Hfx in Hnone. discriminate.
    + exact (Hne b Hb Hbf).
Qed.
End GcProperties.

(** ** More on [add_file], [add_directory] and [add_path] *)

Lemma dict_set_keys {V} k (v : V) kv :
  map fst (dict_set k v kv)
  = if dict_has k kv then map fst kv else map fst kv ++ [k].
Proof.
  unfold dict_has. induction kv as [|[k' v'] kv IH]; [reflexivity|]. simpl.
  destruct (String.eqb_spec k' k) as [->|Hne]; [reflexivity|]. simpl.
  rewrite IH. destruct (dict_get k kv); reflexivity.
Qed.

Lemma dict_get_none_keys {V} k (kv : list (string * V)) :
  dict_get k kv = None -> k ∉ map fst kv.
Proof.
  induction kv as [|[k' v'] kv IH]; simpl; [intros _; apply not_elem_of_nil|].
  destruct (String.eqb_spec k' k) as [->|Hne]; [discriminate|].
  intros Hk. apply not_elem_of_cons. split; [congruence|apply IH, Hk].
Qed.

Lemma dict_set_nodup {V} k (v : V) kv :
  NoDup (map fst kv) -> NoDup (map fst (dict_set k v kv)).
Proof.
  intros Hnd. rewrite dict_set_keys. unfold dict_has.
  destruct (dict_get k kv) eqn:E; [exact Hnd|].
  apply NoDup_app. split; [exact Hnd|]. split.
  - intros x Hx Hk. apply list_elem_of_singleton in Hk. subst x.
    exact (dict_get_none_keys _ _ E Hx).
  - apply NoDup_singleton.
Qed.


Lemma index_dict_set path h m :
  py_setitem (index_dict m) path (PStr h) = Ok (index_dict (dict_set path h m)).
Proof.
  unfold index_dict, py_setitem. do 2 f_equal.
  induction m as [|[k v] m IH]; [reflexivity|]. simpl.
  destruct (String.eqb k path); simpl; [reflexivity|]. rewrite IH. reflexivity.
Qed.

Lemma index_dict_hashable m :
  forallb hashable (map snd (map (fun kv : string * string => (kv.1, PStr kv.2)) m))
  = true.
Proof. induction m as [|[k v] m IH]; [reflexivity|exact IH]. Qed.

Lemma str_in_index m x :
  str_in x (map snd (map (fun kv : string * string => (kv.1, PStr kv.2)) m)) = true
  <-> x ∈ map snd m.
Proof.
  unfold str_in. induction m as [|[k v] m IH]; simpl.
  - split; [discriminate|]. intros Hx. apply elem_of_nil in Hx. destruct Hx.
  - rewrite orb_true_iff, IH, elem_of_cons.
    destruct (String.eqb_spec v x) as [->|Hne]; split; intros [Hx|Hx]; auto;
      try discriminate; try congruence.
Qed.


Section AddProperties.
Context `{Zlib} `{Json}.

Lemma load_saved_index m st :
  NoDup (map fst m) -> load_index (save_index (index_dict m) st) = index_dict m.
Proof.
  intros Hm. unfold load_index. cbn [save_index set_index_file index_file].
  rewrite json_roundtrip by exact Hm. reflexivity.
Qed.

(** The steps of a run of [add_file] that returns. *)
Lemma add_file_inv path st st' :
  add_file path st = Ok st' ->
  exists content h st1 index1,
    worktree st !! path = Some (WFile content) /\
    store_object (Blob content) st = Ok (h, st1) /\
    py_setitem (load_index st1) path (PStr h) = Ok index1 /\
    gc (save_index index1 st1) = Ok st'.
Proof.
  unfold add_file. destruct (worktree st !! path) as [[content|found]|];
    try discriminate.
  cbn [mbind result_bind].
  destruct (store_object _ st) as [[h st1]|] eqn:Es; [|discriminate].
  cbn [mbind result_bind].
  destruct (py_setitem _ _ _) as [index1|] eqn:Ei; [|discriminate].
  cbn [mbind result_bind]. intros Hgc. exists content, h, st1, index1. auto.
Qed.

Lemma add_file_intro path st content h st1 index1 :
  worktree st !! path = Some (WFile content) ->
  store_object (Blob content) st = Ok (h, st1) ->
  py_setitem (load_index st1) path (PStr h) = Ok index1 ->
  add_file path st = gc (save_index index1 st1).
Proof.
  intros Hw Hs Hi. unfold add_file. rewrite Hw. cbn [mbind result_bind].
  rewrite Hs. cbn [mbind result_bind]. rewrite Hi. reflexivity.
Qed.

Lemma obj_exists_after_store obj st h st' x :
  store_object obj st = Ok (h, st') ->
  obj_exists st' x = obj_exists st x || String.eqb x h.
Proof.
  intros Hs. destruct (store_object_effect _ _ _ _ Hs) as (_ & Hother & Hnew & _).
  destruct (String.eqb_spec x h) as [->|Hne].
  - rewrite Hnew, orb_true_r. reflexivity.
  - rewrite orb_false_r. unfold obj_exists, obj_file_exists. rewrite Hother; [reflexivity|].
    intros [= H1 H2]. apply Hne.
    rewrite <- (str_split_at_app 2 x), <- (str_split_at_app 2 h). congruence.
Qed.

Lemma add_file_effect path content st m :
  let h := digest "blob" content in
  worktree st !! path = Some (WFile content) ->
  load_index st = index_dict m ->
  NoDup (map fst m) ->
  (forall data, objects st !! str_take 2 h <> Some (EFile data)) ->
  exists st1 st',
    store_object (Blob content) st = Ok (h, st1) /\
    gc (save_index (index_dict (dict_set path h m)) st1) = Ok st' /\
    add_file path st = Ok st' /\
    load_index st' = index_dict (dict_set path h m) /\
    (forall x, (2 <= py_len x)%nat ->
       obj_exists st' x
       = (obj_exists st x || String.eqb x h)
         && bool_decide (x ∈ map snd (dict_set path h m))) /\
    (forall x, (2 <= py_len x)%nat -> x ∈ map snd (dict_set path h m) ->
       lookup_obj st' (str_take 2 x) (str_drop 2 x)
       = lookup_obj st1 (str_take 2 x) (str_drop 2 x)) /\
    worktree st' = worktree st.
Proof.
  intros h Hw Hidx Hm Hfile.
  assert (Hstore : exists st1, store_object (Blob content) st = Ok (h, st1)).
  { destruct (obj_exists st h) eqn:Hex.
    - exists st. apply store_object_present; [reflexivity|exact Hex].
    - eexists. exact (store_object_absent "blob" content st Hex Hfile). }
  destruct Hstore as (st1 & Hs).
  destruct (store_object_effect _ _ _ _ Hs) as (_ & _ & _ & Hif & Hwt).
  assert (Hidx1 : load_index st1 = index_dict m)
    by (rewrite (load_index_same st st1 Hif); exact Hidx).
  pose proof (index_dict_set path h m) as Hset.
  set (m' := dict_set path h m) in *.
  assert (Hm' : NoDup (map fst m')) by (apply dict_set_nodup, Hm).
  pose proof (load_saved_index m' st1 Hm') as Hload.
  destruct (gc_sweeps (save_index (index_dict m') st1) _ Hload (index_dict_hashable m'))
    as (st' & Hgc & Hif' & Hsweep & _).
  destruct (gc_effect _ _ Hgc) as (_ & _ & _ & _ & Hwt').
  exists st1, st'. split; [exact Hs|]. split; [exact Hgc|]. split.
  { rewrite (add_file_intro path st content h st1 (index_dict m') Hw Hs);
      [exact Hgc|rewrite Hidx1; exact Hset]. }
  split; [rewrite (load_index_same _ st' Hif'); exact Hload|].
  assert (Hlook : forall x, (2 <= py_len x)%nat ->
    lookup_obj st' (str_take 2 x) (str_drop 2 x)
    = if bool_decide (x ∈ map snd m')
      then lookup_obj st1 (str_take 2 x) (str_drop 2 x) else None).
  { intros x Hx. rewrite Hsweep by (apply py_len_bucket, Hx).
    rewrite str_split_at_app.
    change (lookup_obj (save_index (index_dict m') st1)) with (lookup_obj st1).
    destruct (str_in x _) eqn:Hin.
    - apply str_in_index in Hin. rewrite bool_decide_eq_true_2 by exact Hin.
      reflexivity.
    - rewrite bool_decide_eq_false_2; [reflexivity|].
      intros Hin'. apply str_in_index in Hin'. congruence. }
  split; [|split].
  - intros x Hx. rewrite <- (obj_exists_after_store _ _ _ _ x Hs).
    unfold obj_exists at 1, obj_file_exists. rewrite (Hlook x Hx).
    destruct (bool_decide (x ∈ map snd m')); [rewrite andb_true_r; reflexivity|].
    rewrite andb_false_r. apply bool_decide_eq_false. intros [y Hy]. discriminate.
  - intros x Hx Hin. rewrite (Hlook x Hx), bool_decide_eq_true_2 by exact Hin.
    reflexivity.
  - rewrite Hwt'. exact Hwt.
Qed.

Lemma dict_get_values {V} k (v : V) kv : dict_get k kv = Some v -> v ∈ map snd kv.
Proof.
  induction kv as [|[k' v'] kv IH]; simpl; [discriminate|].
  destruct (String.eqb k' k).
  - intros [= ->]. apply elem_of_cons. auto.
  - intros Hk. apply elem_of_cons. right. apply IH, Hk.
Qed.

(** X5 [add_file] stages the file. For a file of the working tree, an index
    that is a mapping from paths to digests, and a store where the bucket
    name of the blob digest [h] is not taken by a plain file, [add_file]
    returns; the index then maps the path to [h] and is otherwise as
    before; an object exists afterwards exactly when it existed before or
    is the new blob, and its digest is a value of the new index (so the
    blob the path had before is deleted unless another path still has it);
    the blob, when it was not there before, deserializes to the content
    of the file; the working tree is untouched. *)
Theorem add_file_stages (path : string) (content : list byte) (st : repo)
    (m : list (string * string)) :
  let h := digest "blob" content in
  worktree st !! path = Some (WFile content) ->
  load_index st = index_dict m ->
  NoDup (map fst m) ->
  (forall data, objects st !! str_take 2 h <> Some (EFile data)) ->
  exists st',
    add_file path st = Ok st' /\
    load_index st' = index_dict (dict_set path h m) /\
    obj_exists st' h = true /\
    (forall x, (2 <= py_len x)%nat ->
       obj_exists st' x
       = (obj_exists st x || String.eqb x h)
         && bool_decide (x ∈ map snd (dict_set path h m))) /\
    (obj_exists st h = false ->
     exists data,
       lookup_obj st' (str_take 2 h) (str_drop 2 h) = Some data /\
       deserialize data = Ok (Blob content)) /\
    worktree st' = worktree st.
Proof.
  intros h Hw Hidx Hm Hfile.
  destruct (add_file_effect path content st m Hw Hidx Hm Hfile)
    as (st1 & st' & Hs & _ & Hadd & Hload & Hex & Hlook & Hwt).
  fold h in Hs, Hload, Hex, Hlook.
  assert (Hlen : (2 <= py_len h)%nat)
    by (unfold h, digest; rewrite py_len_hexdigest; lia).
  assert (Hin : h ∈ map snd (dict_set path h m))
    by (eapply dict_get_values, dict_get_set).
  exists st'. split; [exact Hadd|]. split; [exact Hload|]. split.
  { rewrite (Hex h Hlen), String.eqb_refl, orb_true_r.
    rewrite bool_decide_eq_true_2 by exact Hin. reflexivity. }
  split; [exact Hex|]. split; [|exact Hwt].
  intros Habs. exists (zlib_compress (header (Blob content) ++ content)). split.
  - rewrite (Hlook h Hlen Hin).
    pose proof (store_object_absent "blob" content st Habs Hfile) as Hs'.
    change {| obj_type := "blob"; obj_content := CBytes content |}
      with (Blob content) in Hs'. fold h in Hs'.
    rewrite Hs in Hs'. injection Hs' as ->.
    rewrite lookup_obj_insert, decide_True by reflexivity.
    apply lookup_insert_eq.
  - apply (deserialize_frame "blob" (length content) content); reflexivity.
Qed.


Lemma add_found_invariant (P : repo -> Prop) :
  (forall obj st h st', P st -> store_object obj st = Ok (h, st') -> P st') ->
  forall f index st index' st',
    P st -> add_found (index, st) f = Ok (index', st') -> P st'.
Proof.
  intros Hstore f index st index' st' HP. unfold add_found.
  destruct (_ || _); [intros [= _ <-]; exact HP|].
  destruct (store_object _ st) as [[bh st3]|] eqn:Es; [|discriminate].
  cbn [mbind result_bind].
  destruct (ff_rel f); [|discriminate]. cbn [mbind result_bind].
  destruct (py_setitem _ _ _); [|discriminate]. cbn.
  intros [= _ <-]. eapply Hstore; eauto.
Qed.

Lemma for_each_add_found_invariant (P : repo -> Prop) :
  (forall obj st h st', P st -> store_object obj st = Ok (h, st') -> P st') ->
  forall found index st index' st',
    P st -> for_each add_found (index, st) found = Ok (index', st') -> P st'.
Proof.
  intros Hstore. induction found as [|f found IH]; intros index st index' st' HP.
  - intros [= _ <-]. exact HP.
  - cbn [for_each].
    destruct (add_found (index, st) f) as [[index2 st2]|] eqn:Ea; [|discriminate].
    cbn [mbind result_bind]. apply IH.
    exact (add_found_invariant P Hstore _ _ _ _ _ HP Ea).
Qed.

(** An invariant of [store_object], [save_index] and [gc] holds after every
    add that returns. *)
Lemma add_invariant (P : repo -> Prop) :
  (forall obj st h st', P st -> store_object obj st = Ok (h, st') -> P st') ->
  (forall index st, P st -> P (save_index index st)) ->
  (forall st st', P st -> gc st = Ok st' -> P st') ->
  forall path st st',
    P st ->
    add_file path st = Ok st' \/ add_directory path st = Ok st' \/
    add_path path st = Ok st' ->
    P st'.
Proof.
  intros Hstore Hsave Hgc path st st' HP.
  assert (Hfile : add_file path st = Ok st' -> P st').
  { intros Hadd.
    destruct (add_file_inv _ _ _ Hadd) as (content & h & st1 & index1 & _ & Hs & _ & Hg).
    eapply Hgc; [|exact Hg]. apply Hsave. eapply Hstore; eauto. }
  assert (Hdir : add_directory path st = Ok st' -> P st').
  { unfold add_directory.
    destruct (worktree st !! path) as [[content|found]|]; try discriminate.
    destruct (for_each add_found (load_index st, st) found) as [[index st1]|] eqn:Ef;
      [|discriminate].
    cbn [mbind result_bind]. intros Hg. eapply Hgc; [|exact Hg]. apply Hsave.
    exact (for_each_add_found_invariant P Hstore _ _ _ _ _ HP Ef). }
  intros [Hadd|[Hadd|Hadd]]; [auto|auto|].
  unfold add_path in Hadd.
  destruct (worktree st !! path) as [[content|found]|] eqn:Hw;
    [auto|auto|discriminate Hadd].
Qed.

Lemma store_object_sound obj st h st' :
  store_sound st -> store_object obj st = Ok (h, st') -> store_sound st'.
Proof.
  intros Hsound Hs.
  destruct (store_object_cases _ _ _ _ Hs) as (Hh & [(_ & ->)|Hnew]); [exact Hsound|].
  destruct Hnew as (Hex & framed & files & Hf & Hfiles & ->).
  assert (Hold : forall f, lookup_obj st (str_take 2 h) f = files !! f).
  { intros f. unfold lookup_obj.
    destruct Hfiles as [(-> & ->)| ->]; [rewrite lookup_empty|]; reflexivity. }
  intros b f data. rewrite lookup_obj_insert. case_decide as Hb; [|apply Hsound].
  subst b. rewrite lookup_insert. case_decide as Hfe.
  - subst f. intros [= <-]. exists framed. split; [apply zlib_roundtrip|].
    rewrite str_split_at_app. unfold hash in Hh. rewrite Hf in Hh.
    cbn in Hh. congruence.
  - rewrite <- Hold. apply Hsound.
Qed.

(** X7 The store stays content-addressed. If every object file is named by
    the SHA-1 of what it decompresses to, the same holds after every
    [store_object], [gc], [add_file], [add_directory] and [add_path] that
    returns. *)
Theorem store_stays_sound (st : repo) :
  store_sound st ->
  (forall obj h st', store_object obj st = Ok (h, st') -> store_sound st') /\
  (forall st', gc st = Ok st' -> store_sound st') /\
  (forall path st',
     add_file path st = Ok st' \/ add_directory path st = Ok st' \/
     add_path path st = Ok st' ->
     store_sound st').
Proof.
  intros Hsound.
  assert (Hgc : forall st0 st', store_sound st0 -> gc st0 = Ok st' -> store_sound st').
  { intros st0 st' Hs0 Hg b f data Hd.
    destruct (gc_effect _ _ Hg) as (Hsub & _). apply Hs0, Hsub, Hd. }
  split; [|split].
  - intros obj h st'. apply store_object_sound, Hsound.
  - intros st'. apply Hgc, Hsound.
  - intros path st'. apply (add_invariant store_sound); try assumption.
    + intros obj st0 h st1. apply store_object_sound.
    + intros index st0 Hs0. exact Hs0.
Qed.
End AddProperties.

Lemma dict_get_set_ne {V} k k' (v : V) kv :
  k <> k' -> dict_get k' (dict_set k v kv) = dict_get k' kv.
Proof.
  intros Hne. induction kv as [|[k0 v0] kv IH]; simpl.
  - destruct (String.eqb_spec k k'); [contradiction|reflexivity].
  - destruct (String.eqb_spec k0 k) as [->|Hk]; simpl.
    + destruct (String.eqb_spec k k'); [contradiction|reflexivity].
    + destruct (String.eqb k0 k'); [reflexivity|exact IH].
Qed.

Lemma stage_all_nodup found : forall m,
  NoDup (map fst m) -> NoDup (map fst (stage_all m found)).
Proof.
  induction found as [|f found IH]; intros m Hm; simpl; [exact Hm|].
  destruct (skipped f); [apply IH, Hm|].
  destruct (ff_rel f); [|exact Hm]. apply IH, dict_set_nodup, Hm.
Qed.

Lemma stage_all_other found : forall m p,
  p ∉ kept_rels found -> dict_get p (stage_all m found) = dict_get p m.
Proof.
  unfold kept_rels.
  induction found as [|f found IH]; intros m p Hp; simpl in *; [reflexivity|].
  destruct (skipped f); [apply IH, Hp|].
  destruct (ff_rel f) as [p0|]; [|reflexivity]. simpl in Hp.
  apply not_elem_of_cons in Hp as [Hne Hp].
  rewrite IH by exact Hp. apply dict_get_set_ne. congruence.
Qed.

Lemma stage_all_get found : forall m f p,
  (forall f', f' ∈ found -> skipped f' = false -> is_Some (ff_rel f')) ->
  f ∈ found -> skipped f = false -> ff_rel f = Some p ->
  NoDup (kept_rels found) ->
  dict_get p (stage_all m found) = Some (digest "blob" (ff_content f)).
Proof.
  unfold kept_rels.
  induction found as [|f0 found IH]; intros m f p Hall Hf Hk Hrel Hnd.
  { apply elem_of_nil in Hf. destruct Hf. }
  assert (Hall' : forall f', f' ∈ found -> skipped f' = false -> is_Some (ff_rel f'))
    by (intros f' Hf'; apply Hall, elem_of_cons; auto).
  apply elem_of_cons in Hf. simpl in *.
  destruct (skipped f0) eqn:Hk0.
  - destruct Hf as [->|Hf]; [congruence|]. eapply IH; eauto.
  - destruct (Hall f0 (list_elem_of_here _ _) Hk0) as [p0 Hp0]. rewrite Hp0 in *.
    simpl in Hnd. apply NoDup_cons in Hnd as [Hp Hnd].
    destruct Hf as [->|Hf].
    + assert (p0 = p) as -> by congruence.
      rewrite (stage_all_other found _ p Hp). apply dict_get_set.
    + eapply IH; eauto.
Qed.

Section AddDirectoryProperties.
Context `{Zlib} `{Json}.

Lemma obj_exists_mono st st' h :
  (forall b f data, lookup_obj st b f = Some data ->
     lookup_obj st' b f = Some data) ->
  obj_exists st h = true -> obj_exists st' h = true.
Proof.
  intros Hmono. unfold obj_exists, obj_file_exists.
  intros [x Hx]%bool_decide_eq_true. apply bool_decide_eq_true.
  exists x. apply Hmono, Hx.
Qed.

Lemma add_found_skipped index st f :
  skipped f = true -> add_found (index, st) f = Ok (index, st).
Proof. unfold add_found, skipped. intros ->. reflexivity. Qed.

Lemma add_found_kept index st f :
  skipped f = false ->
  add_found (index, st) f
  = ('(blob_hash, st) ← store_object (Blob (ff_content f)) st;
     rel_path ← match ff_rel f with
                | Some p => Ok p
                | None => Raise ValueError
                end;
     index ← py_setitem index rel_path (PStr blob_hash);
     Ok (index, st)).
Proof. unfold add_found, skipped. intros ->. reflexivity. Qed.

(** The loop of [add_directory] on an index that maps paths to digests. *)
Lemma for_each_add_found_effect found : forall m st index' st1,
  for_each add_found (index_dict m, st) found = Ok (index', st1) ->
  index' = index_dict (stage_all m found) /\
  index_file st1 = index_file st /\
  worktree st1 = worktree st /\
  (forall b f data, lookup_obj st b f = Some data ->
     lookup_obj st1 b f = Some data) /\
  (forall f, f ∈ found -> skipped f = false ->
     is_Some (ff_rel f) /\
     obj_exists st1 (digest "blob" (ff_content f)) = true).
Proof.
  induction found as [|f0 found IH]; intros m st index' st1.
  { intros [= <- <-]. do 4 (split; [auto|]).
    intros f Hf. apply elem_of_nil in Hf. destruct Hf. }
  cbn [for_each stage_all].
  destruct (skipped f0) eqn:Hk0.
  - rewrite (add_found_skipped _ _ _ Hk0). cbn [mbind result_bind]. intros Hrest.
    destruct (IH _ _ _ _ Hrest) as (Hi & Hif & Hwt & Hmono & Hkept).
    do 4 (split; [assumption|]).
    intros f Hf Hk. apply elem_of_cons in Hf as [->|Hf]; [congruence|].
    apply (Hkept f Hf Hk).
  - rewrite (add_found_kept _ _ _ Hk0).
    destruct (store_object (Blob (ff_content f0)) st) as [[h st2]|] eqn:Es;
      [|discriminate].
    cbn [mbind result_bind].
    destruct (ff_rel f0) as [p0|] eqn:Hrel; [|discriminate].
    cbn [mbind result_bind]. rewrite index_dict_set. cbn [mbind result_bind].
    destruct (store_object_cases _ _ _ _ Es) as (Hh & _).
    unfold Blob in Hh. rewrite hash_bytes in Hh. injection Hh as <-.
    destruct (store_object_effect _ _ _ _ Es) as (Hm2 & _ & Hnew & Hif2 & Hwt2).
    intros Hrest.
    destruct (IH _ _ _ _ Hrest) as (Hi & Hif & Hwt & Hmono & Hkept).
    split; [exact Hi|]. split; [congruence|]. split; [congruence|].
    split; [intros b f data Hd; apply Hmono, Hm2, Hd|].
    intros f Hf Hk. apply elem_of_cons in Hf as [->|Hf]; [|apply (Hkept f Hf Hk)].
    split; [rewrite Hrel; eauto|]. exact (obj_exists_mono _ _ _ Hmono Hnew).
Qed.

(** X8 [add_directory] stages the files it does not skip. On an index that
    maps paths to digests, a run that returns leaves the index that results
    from setting, in listing order, the relative path of every file with
    neither [.git] nor [.vscode] among its path parts to the digest of its
    content; files with such a part change nothing. Every such file has a
    relative path, and its blob exists afterwards if the index still maps
    the path to it, which it does when these paths are pairwise distinct.
    The working tree is untouched. *)
Theorem add_directory_stages (path : string) (found : list found_file)
    (st st' : repo) (m : list (string * string)) :
  worktree st !! path = Some (WDir found) ->
  load_index st = index_dict m ->
  NoDup (map fst m) ->
  add_directory path st = Ok st' ->
  load_index st' = index_dict (stage_all m found) /\
  (forall f, f ∈ found -> skipped f = false ->
     exists p, ff_rel f = Some p /\
       (dict_get p (stage_all m found) = Some (digest "blob" (ff_content f)) ->
        obj_exists st' (digest "blob" (ff_content f)) = true) /\
       (NoDup (kept_rels found) ->
        dict_get p (stage_all m found) = Some (digest "blob" (ff_content f)))) /\
  worktree st' = worktree st.
Proof.
  intros Hw Hidx Hm. unfold add_directory. rewrite Hw, Hidx.
  destruct (for_each add_found (index_dict m, st) found) as [[index1 st1]|] eqn:Ef;
    [|discriminate].
  cbn [mbind result_bind]. intros Hgc.
  destruct (for_each_add_found_effect _ _ _ _ _ Ef) as (-> & Hif & Hwt & _ & Hkept).
  set (m' := stage_all m found) in *.
  assert (Hm' : NoDup (map fst m')) by (apply stage_all_nodup, Hm).
  pose proof (load_saved_index m' st1 Hm') as Hload.
  destruct (gc_sweeps _ _ Hload (index_dict_hashable m'))
    as (st2 & Hgc2 & Hif' & Hsweep & _).
  rewrite Hgc in Hgc2. injection Hgc2 as <-.
  destruct (gc_effect _ _ Hgc) as (_ & _ & _ & _ & Hwt').
  split; [rewrite (load_index_same _ st' Hif'); exact Hload|].
  split; [|rewrite Hwt'; exact Hwt].
  intros f Hf Hk. destruct (Hkept f Hf Hk) as ([p Hp] & Hex).
  exists p. split; [exact Hp|]. split.
  - intros Hget. set (h := digest "blob" (ff_content f)) in *.
    assert (Hlen : (2 <= py_len h)%nat)
      by (unfold h, digest; rewrite py_len_hexdigest; lia).
    unfold obj_exists, obj_file_exists.
    rewrite Hsweep by (apply py_len_bucket, Hlen). rewrite str_split_at_app.
    assert (Hin : str_in h (map snd (map (fun kv : string * string =>
                    (kv.1, PStr kv.2)) m')) = true)
      by (apply str_in_index; eapply dict_get_values, Hget).
    rewrite Hin. exact Hex.
  - intros Hnd. apply (stage_all_get found m f p); auto.
    intros f' Hf' Hk'. apply (Hkept f' Hf' Hk').
Qed.
End AddDirectoryProperties.

(** ** More on trees *)

Lemma for_each_add_entry es : forall t,
  es <> [] ->
  forallb hex_ok (tree_entries t) = true ->
  for_each (fun tree e => add_entry tree e.1.1 e.1.2 e.2) t es
  = if forallb hex_ok es then
      content ← _serialize_entries (tree_entries t ++ es);
      Ok {| tree_obj := {| obj_type := obj_type (tree_obj t);
                           obj_content := CBytes content |};
            tree_entries := tree_entries t ++ es |}
    else Raise ValueError.
Proof.
  set (step := fun (tree : Tree) (e : entry) => add_entry tree e.1.1 e.1.2 e.2).
  induction es as [|e es IH]; intros t Hne Hpre; [congruence|].
  cbn [for_each forallb]. destruct e as [[mode name] obj_hash].
  cbn [fst snd]. fold step. unfold add_entry. cbv zeta.
  destruct (hex_ok (mode, name, obj_hash)) eqn:He; cbn [andb].
  - destruct (serialize_entries_ok (tree_entries t ++ [(mode, name, obj_hash)]))
      as [c Hc].
    { rewrite forallb_app, Hpre. simpl. rewrite He. reflexivity. }
    unfold entry in *. rewrite Hc. cbn [mbind result_bind].
    destruct es as [|e' es'].
    + cbn [for_each forallb]. rewrite Hc. reflexivity.
    + rewrite IH; [|discriminate|].
      * cbn [tree_entries tree_obj obj_type]. rewrite <- app_assoc. reflexivity.
      * cbn [tree_entries]. rewrite forallb_app, Hpre. simpl. rewrite He. reflexivity.
  - rewrite (serialize_entries_raise (tree_entries t ++ [(mode, name, obj_hash)])).
    + reflexivity.
    + rewrite forallb_app, Hpre. simpl. rewrite He. reflexivity.
Qed.

(** What [hash] and [serialize] see of a tree built from a list of entries. *)
Lemma build_tree_obj es :
  (t ← build_tree es; Ok (tree_obj t))
  = match es with
    | [] => Ok {| obj_type := "tree"; obj_content := CEntries [] |}
    | _ =>
      if forallb hex_ok es then
        content ← _serialize_entries es;
        Ok {| obj_type := "tree"; obj_content := CBytes content |}
      else Raise ValueError
    end.
Proof.
  unfold build_tree. rewrite Tree_init_empty_list. cbn [mbind result_bind].
  destruct es as [|e es]; [reflexivity|].
  rewrite for_each_add_entry by (discriminate || reflexivity).
  destruct (forallb hex_ok (e :: es)); [|reflexivity].
  cbn [tree_entries empty_tree app tree_obj obj_type].
  destruct (_serialize_entries (e :: es)); reflexivity.
Qed.

Lemma build_tree_obj_permutation l1 l2 :
  l1 ≡ₚ l2 ->
  (t ← build_tree l1; Ok (tree_obj t)) = (t ← build_tree l2; Ok (tree_obj t)).
Proof.
  intros Hp. rewrite !build_tree_obj.
  destruct l1 as [|a l1].
  - apply Permutation_nil_l in Hp. subst l2. reflexivity.
  - destruct l2 as [|b l2]; [apply Permutation_nil_r in Hp; discriminate|].
    rewrite (forallb_permutation hex_ok _ _ Hp),
      (serialize_entries_permutation _ _ Hp). reflexivity.
Qed.

Section TreeProperties.
Context `{Zlib}.

(** X9 The digest of a tree does not depend on the order in which any
    number of entries were added: trees built with [add_entry] from two
    lists that are permutations of each other have the same digest and the
    same serialized bytes, and both exist when the lists are not empty and
    every entry hash is hexadecimal. *)
Theorem tree_digest_permutation (l1 l2 : list entry) :
  l1 ≡ₚ l2 ->
  (t ← build_tree l1; hash (tree_obj t))
    = (t ← build_tree l2; hash (tree_obj t)) /\
  (t ← build_tree l1; serialize (tree_obj t))
    = (t ← build_tree l2; serialize (tree_obj t)) /\
  (l1 <> [] -> forallb hex_ok l1 = true ->
   exists h data,
     (t ← build_tree l2; hash (tree_obj t)) = Ok h /\
     (t ← build_tree l2; serialize (tree_obj t)) = Ok data).
Proof.
  intros Hp. split; [|split].
  - rewrite !(bind_obj _ hash), (build_tree_obj_permutation _ _ Hp). reflexivity.
  - rewrite !(bind_obj _ serialize), (build_tree_obj_permutation _ _ Hp). reflexivity.
  - intros Hne Hok.
    rewrite (bind_obj _ hash), (bind_obj _ serialize),
      <- (build_tree_obj_permutation _ _ Hp), build_tree_obj.
    destruct l1 as [|a l1]; [congruence|]. rewrite Hok.
    destruct (serialize_entries_ok _ Hok) as [c ->]. cbn. eauto.
Qed.

(** X10 A tree as its constructor leaves it cannot be hashed, serialized or
    stored: whenever [Tree(entries)] returns, with entries or with none,
    [hash], [serialize] and [store_object] raise [TypeError] on it, since
    [content] holds the list and not bytes. *)
Theorem Tree_init_not_storable (entries : list entry) (t : Tree) (st : repo) :
  Tree_init [entries] = Ok t ->
  hash (tree_obj t) = Raise TypeError /\
  serialize (tree_obj t) = Raise TypeError /\
  store_object (tree_obj t) st = Raise TypeError.
Proof.
  unfold Tree_init. destruct (_serialize_entries entries); [|discriminate].
  cbn. intros [= <-]. repeat split.
Qed.
End TreeProperties.

(** ** Commits *)

Lemma join_cons sep p r :
  r <> [] -> join sep (p :: r) = p +:+ sep +:+ join sep r.
Proof. destruct r; [congruence|reflexivity]. Qed.

Lemma join_split sep s : join (String sep "") (split sep s) = s.
Proof.
  induction s as [|c s IH]; [reflexivity|]. cbn [split].
  destruct (Ascii.eqb_spec c sep) as [->|Hc].
  - rewrite join_cons by apply split_nonempty. rewrite IH. reflexivity.
  - destruct (split sep s) as [|h t] eqn:E; [destruct (split_nonempty _ _ E)|].
    destruct t as [|h' t].
    + cbn in *. congruence.
    + rewrite join_cons in * by discriminate. rewrite app_cons. congruence.
Qed.

Lemma split_app_sep sep a b :
  split sep (a +:+ String sep b) = split sep a ++ split sep b.
Proof.
  induction a as [|c a IH].
  - rewrite app_nil_l. cbn [split]. rewrite Ascii.eqb_refl. reflexivity.
  - rewrite app_cons. cbn [split]. rewrite IH.
    destruct (Ascii.eqb c sep); [reflexivity|].
    destruct (split sep a) as [|h t] eqn:E; [destruct (split_nonempty _ _ E)|].
    reflexivity.
Qed.

Lemma split_join sep hs last :
  Forall (fun h => count_char sep h = 0%nat) hs ->
  split sep (join (String sep "") (hs ++ [last])) = hs ++ split sep last.
Proof.
  induction 1 as [|h hs Hh _ IH]; [reflexivity|].
  cbn [app]. rewrite join_cons by (destruct hs; discriminate).
  rewrite app_cons, app_nil_l, split_app by exact Hh. rewrite IH. reflexivity.
Qed.

Lemma rsplit_author a t z :
  count_char " " t = 0%nat -> count_char " " z = 0%nat ->
  rsplit " " 2 (a +:+ " " +:+ t +:+ " " +:+ z) = [a; t; z].
Proof.
  intros Ht Hz. unfold rsplit.
  change (a +:+ " " +:+ t +:+ " " +:+ z)
    with (a +:+ String " " (t +:+ String " " z)).
  rewrite split_app_sep, (split_app _ t) by exact Ht.
  rewrite (split_none _ z) by exact Hz.
  rewrite length_app. cbn [length].
  pose proof (split_length " " a) as Hlen.
  replace (Nat.max 1 (length (split " " a) + 2 - 2)) with (length (split " " a))
    by lia.
  rewrite take_app_length, drop_app_length, join_split. reflexivity.
Qed.

Lemma str_of_Z_decimal n : all_chars is_decimal (str_of_Z n) = true.
Proof.
  unfold str_of_Z.
  assert (Hd : forall d, all_chars is_decimal (NilEmpty.string_of_uint d) = true).
  { intros d. apply (all_chars_impl is_digit); [|apply string_of_uint_digits].
    intros c Hc. unfold is_decimal. rewrite Hc. reflexivity. }
  destruct (Z.to_int n); cbn [NilEmpty.string_of_int all_chars]; rewrite ?Hd; reflexivity.
Qed.

Lemma decimal_ascii7 c : is_decimal c = true -> is_ascii7 c = true.
Proof.
  unfold is_decimal. intros [Hc|Hc]%orb_true_iff; [apply digit_ascii7, Hc|].
  apply Ascii.eqb_eq in Hc. subst c. reflexivity.
Qed.

Lemma is_str_app a b : is_str a = true -> is_str b = true -> is_str (a +:+ b) = true.
Proof. unfold is_str. rewrite encode_app. apply utf8_valid_app. Qed.

Lemma is_str_ascii s : all_chars is_ascii7 s = true -> is_str s = true.
Proof. intros Hs. unfold is_str, utf8_valid. rewrite utf8_run_ascii by exact Hs. reflexivity. Qed.

Lemma is_str_str_of_Z n : is_str (str_of_Z n) = true.
Proof.
  apply is_str_ascii, (all_chars_impl is_decimal); [apply decimal_ascii7|].
  apply str_of_Z_decimal.
Qed.

Lemma is_str_join sep lines :
  is_str sep = true -> Forall (fun l => is_str l = true) lines ->
  is_str (join sep lines) = true.
Proof.
  intros Hsep. induction 1 as [|l ls Hl Hls IH]; [reflexivity|].
  destruct ls as [|l' ls]; [exact Hl|].
  rewrite join_cons by discriminate. auto using is_str_app.
Qed.

Lemma decode_encode s : is_str s = true -> decode (encode s) = Ok s.
Proof.
  unfold is_str, decode, encode. intros ->.
  rewrite String.string_of_list_byte_of_string. reflexivity.
Qed.

(** A continuation byte cannot start a character. *)
Lemma cont_not_start c :
  is_cont c = true -> utf8_step UStart (Z.of_N (N_of_ascii c)) = None.
Proof. destruct c as [[] [] [] [] [] [] [] []]; cbn; (discriminate || reflexivity). Qed.

Lemma is_str_starts_clean s : is_str s = true -> starts_clean s.
Proof.
  unfold starts_clean. destruct s as [|c s]; [reflexivity|]. intros Hs.
  cbn [str_split_at]. destruct (is_cont c) eqn:Ec; [|reflexivity].
  unfold is_str, utf8_valid in Hs. rewrite encode_cons in Hs. cbn [utf8_run] in Hs.
  rewrite byte_val_of_ascii, (cont_not_start _ Ec) in Hs. discriminate.
Qed.

Lemma starts_clean_app a b :
  is_str a = true -> starts_clean b -> starts_clean (a +:+ b).
Proof.
  intros Ha Hb. destruct a as [|c a]; [exact Hb|].
  apply is_str_starts_clean in Ha. unfold starts_clean in *.
  rewrite app_cons. cbn [str_split_at] in *.
  destruct (is_cont c); [|reflexivity].
  destruct (str_split_at 0 a); discriminate.
Qed.

Lemma str_drop_prefix p s :
  all_chars is_ascii7 p = true -> starts_clean s ->
  str_drop (String.length p) (p +:+ s) = s.
Proof.
  unfold str_drop, starts_clean. intros Hp Hs.
  induction p as [|c p IH];
    [rewrite app_nil_l; cbn [String.length]; rewrite Hs; reflexivity|].
  cbn [all_chars] in Hp. apply andb_true_iff in Hp as [Hc Hp].
  rewrite app_cons. cbn [String.length str_split_at].
  assert (Hcont : is_cont c = false).
  { destruct (is_cont c) eqn:Ec; [|reflexivity].
    destruct c as [[] [] [] [] [] [] [] []]; discriminate. }
  rewrite Hcont. specialize (IH Hp).
  destruct (str_split_at (String.length p) (p +:+ s)). exact IH.
Qed.

Lemma prefix_app a x : String.prefix a (a +:+ x) = true.
Proof.
  induction a as [|c a IH]; [destruct x; reflexivity|].
  rewrite app_cons. cbn [String.prefix].
  destruct (ascii_dec c c); [exact IH|congruence].
Qed.

Lemma drop_tree x : starts_clean x -> str_drop 5 ("tree " +:+ x) = x.
Proof. exact (str_drop_prefix "tree " x eq_refl). Qed.

Lemma drop_parent x : starts_clean x -> str_drop 7 ("parent " +:+ x) = x.
Proof. exact (str_drop_prefix "parent " x eq_refl). Qed.

Lemma drop_author x : starts_clean x -> str_drop 7 ("author " +:+ x) = x.
Proof. exact (str_drop_prefix "author " x eq_refl). Qed.

Lemma drop_committer x : starts_clean x -> str_drop 10 ("committer " +:+ x) = x.
Proof. exact (str_drop_prefix "committer " x eq_refl). Qed.

Lemma starts_clean_signed a t :
  is_str a = true -> starts_clean (a +:+ " " +:+ t).
Proof. intros Ha. apply starts_clean_app; [exact Ha|reflexivity]. Qed.

Lemma str_of_Z_no_space n : count_char " " (str_of_Z n) = 0%nat.
Proof. apply (all_chars_count is_decimal); [reflexivity|apply str_of_Z_decimal]. Qed.

Lemma str_of_Z_no_LF n : count_char LF (str_of_Z n) = 0%nat.
Proof. apply (all_chars_count is_decimal); [reflexivity|apply str_of_Z_decimal]. Qed.

Lemma rsplit_signed a n :
  rsplit " " 2 (a +:+ " " +:+ str_of_Z n +:+ " +0000") = [a; str_of_Z n; "+0000"].
Proof. apply (rsplit_author a (str_of_Z n) "+0000"); [apply str_of_Z_no_space|reflexivity]. Qed.

Section CommitProperties.
Context `{PyInt}.

Lemma scan_parents ps : forall i rest l,
  Forall (fun p => is_str p = true) ps ->
  scan_lines i (map (fun parent => "parent " +:+ parent) ps ++ rest) l
  = scan_lines (i + length ps) rest
      {| l_tree_hash := l_tree_hash l;
         l_parent_hashes := l_parent_hashes l ++ ps;
         l_author := l_author l; l_committer := l_committer l;
         l_timestamp := l_timestamp l;
         l_msg_start_index := l_msg_start_index l |}.
Proof.
  induction ps as [|p ps IH]; intros i rest l Hps.
  - rewrite Nat.add_0_r, app_nil_r. destruct l; reflexivity.
  - apply Forall_cons in Hps as [Hp Hps].
    cbn [map app scan_lines].
    change (String.prefix "tree " ("parent " +:+ p)) with false.
    rewrite prefix_app. rewrite drop_parent by apply is_str_starts_clean, Hp.
    rewrite IH by exact Hps. cbn [l_tree_hash l_parent_hashes l_author
      l_committer l_timestamp l_msg_start_index length].
    rewrite <- app_assoc, Nat.add_succ_r. reflexivity.
Qed.

Lemma scan_serialized th ps a cm n rest :
  is_str th = true -> Forall (fun p => is_str p = true) ps ->
  is_str a = true -> is_str cm = true ->
  scan_lines 0
    (("tree " +:+ th) :: map (fun parent => "parent " +:+ parent) ps ++
     ("author " +:+ a +:+ " " +:+ str_of_Z n +:+ " +0000") ::
     ("committer " +:+ cm +:+ " " +:+ str_of_Z n +:+ " +0000") :: "" :: rest)
    initial_locals
  = inr {| l_tree_hash := Some th; l_parent_hashes := ps;
           l_author := Some a; l_committer := Some cm;
           l_timestamp := Some n;
           l_msg_start_index := 4 + length ps |}.
Proof.
  intros Hth Hps Ha Hcm. cbn [scan_lines].
  rewrite prefix_app.
  rewrite drop_tree by apply is_str_starts_clean, Hth.
  rewrite scan_parents by exact Hps. cbn [scan_lines].
  change (String.prefix "tree " ("author " +:+ a +:+ " " +:+ str_of_Z n +:+ " +0000"))
    with false.
  change (String.prefix "parent " ("author " +:+ a +:+ " " +:+ str_of_Z n +:+ " +0000"))
    with false.
  rewrite prefix_app. rewrite drop_author by apply starts_clean_signed, Ha.
  rewrite rsplit_signed, py_int_str. cbn [scan_lines].
  change (String.prefix "tree " ("committer " +:+ cm +:+ " " +:+ str_of_Z n +:+ " +0000"))
    with false.
  change (String.prefix "parent " ("committer " +:+ cm +:+ " " +:+ str_of_Z n +:+ " +0000"))
    with false.
  change (String.prefix "author " ("committer " +:+ cm +:+ " " +:+ str_of_Z n +:+ " +0000"))
    with false.
  rewrite prefix_app. rewrite drop_committer by apply starts_clean_signed, Hcm.
  rewrite rsplit_signed. cbn [scan_lines String.prefix String.eqb].
  cbn [l_tree_hash l_parent_hashes l_author l_committer l_timestamp
       l_msg_start_index initial_locals app].
  reflexivity.
Qed.

Lemma drop_commit_header {A} (f : string -> A) (t : A) ps a c e rest :
  drop (4 + length ps) (t :: map f ps ++ a :: c :: e :: rest) = rest.
Proof. induction ps as [|p ps IH]; [reflexivity|exact IH]. Qed.

Lemma one_line_inv s :
  one_line s = true -> is_str s = true /\ count_char LF s = 0%nat.
Proof.
  unfold one_line. intros [Hs Hn]%andb_true_iff.
  apply Nat.eqb_eq in Hn. auto.
Qed.

Lemma serialized_lines_text th ps a cm msg n :
  one_line th = true -> Forall (fun p => one_line p = true) ps ->
  one_line a = true -> one_line cm = true -> is_str msg = true ->
  Forall (fun l => is_str l = true /\ count_char LF l = 0%nat)
    ((((["tree " +:+ th] ++ map (fun parent => "parent " +:+ parent) ps) ++
       ["author " +:+ a +:+ " " +:+ str_of_Z n +:+ " +0000"]) ++
      ["committer " +:+ cm +:+ " " +:+ str_of_Z n +:+ " +0000"]) ++ [""]).
Proof.
  intros [Hth Lth]%one_line_inv Hps [Ha La]%one_line_inv [Hcm Lcm]%one_line_inv _.
  pose proof (is_str_str_of_Z n) as Hn. pose proof (str_of_Z_no_LF n) as Ln.
  repeat apply Forall_app_2; repeat apply Forall_cons_2; try apply Forall_nil_2.
  - split; [apply is_str_app; [reflexivity|exact Hth]|].
    rewrite count_char_app, Lth. reflexivity.
  - apply Forall_map. eapply Forall_impl; [exact Hps|].
    intros p [Hp Lp]%one_line_inv. cbn beta.
    split; [apply is_str_app; [reflexivity|exact Hp]|].
    rewrite count_char_app, Lp. reflexivity.
  - split; [repeat apply is_str_app; (reflexivity || assumption)|].
    rewrite !count_char_app, La, Ln. reflexivity.
  - split; [repeat apply is_str_app; (reflexivity || assumption)|].
    rewrite !count_char_app, Lcm, Ln. reflexivity.
  - split; reflexivity.
Qed.

Lemma Commit_from_content_serialize_commit (now' : Z) th ps a cm msg n :
  one_line th = true -> Forall (fun p => one_line p = true) ps ->
  one_line a = true -> one_line cm = true -> is_str msg = true ->
  n <> 0%Z ->
  Commit_from_content now'
    (_serialize_commit (Some th) ps (Some a) (Some cm) msg n)
  = match Commit_init now' (Some th) (Some ps) (Some a) (Some cm) msg (Some n) with
    | Ok c => inr c
    | Raise e => inl (Builtin e)
    end.
Proof.
  intros Hth Hps Ha Hcm Hmsg Hn.
  pose proof (serialized_lines_text th ps a cm msg n Hth Hps Ha Hcm Hmsg) as Hlines.
  apply one_line_inv in Hth as [Hth _], Ha as [Ha _], Hcm as [Hcm _].
  assert (Hps' : Forall (fun p => is_str p = true) ps).
  { eapply Forall_impl; [exact Hps|]. intros p Hp. apply one_line_inv in Hp. tauto. }
  unfold Commit_from_content, _serialize_commit, fstr, default. cbv zeta.
  cbn [from_option]. unfold id.
  rewrite decode_encode.
  2:{ apply is_str_join; [reflexivity|]. apply Forall_app_2.
      - eapply Forall_impl; [exact Hlines|]. cbn beta. tauto.
      - apply Forall_cons_2; [exact Hmsg|apply Forall_nil_2]. }
  rewrite split_join.
  2:{ eapply Forall_impl; [exact Hlines|]. cbn beta. tauto. }
  rewrite <- !app_assoc. cbn [app].
  rewrite scan_serialized by assumption.
  cbn [l_tree_hash l_parent_hashes l_author l_committer l_timestamp
       l_msg_start_index].
  rewrite drop_commit_header, join_split. reflexivity.
Qed.

(** X11 Reading a commit back. A commit built from a tree hash, parent
    hashes, an author and a committer that each fit on one line, and any
    message, is returned unchanged by [Commit.from_content] applied to its
    content, whatever the clock says then, provided its timestamp is not
    [0]. *)
Theorem Commit_from_content_roundtrip (now now' : Z) (th : string)
    (ps : list string) (a cm msg : string) (ts : option Z) (c : Commit) :
  one_line th = true -> Forall (fun p => one_line p = true) ps ->
  one_line a = true -> one_line cm = true -> is_str msg = true ->
  Commit_init now (Some th) (Some ps) (Some a) (Some cm) msg ts = Ok c ->
  timestamp c <> 0%Z ->
  exists content,
    obj_content (commit_obj c) = CBytes content /\
    Commit_from_content now' content = inr c.
Proof.
  intros Hth Hps Ha Hcm Hmsg Hc Hn.
  unfold Commit_init in Hc. injection Hc as <-.
  cbn [timestamp] in Hn. cbn [obj_content commit_obj].
  eexists; split; [reflexivity|].
  rewrite Commit_from_content_serialize_commit by assumption.
  unfold Commit_init. apply Z.eqb_neq in Hn. rewrite Hn. reflexivity.
Qed.

Lemma prefix_first c d p q line :
  c <> d -> String.prefix (String c p) line = true ->
  String.prefix (String d q) line = false.
Proof.
  intros Hcd. destruct line as [|x line]; [reflexivity|]. cbn [String.prefix].
  destruct (ascii_dec c x), (ascii_dec d x); congruence.
Qed.

Lemma rsplit_cons sep k s : exists p r, rsplit sep k s = p :: r.
Proof. unfold rsplit. eauto. Qed.

Lemma scan_lines_keeps_timestamp lines : forall i l l',
  scan_lines i lines l = inr l' ->
  l_timestamp l <> None -> l_timestamp l' <> None.
Proof.
  induction lines as [|line rest IH]; intros i l l' Hs Hl.
  - injection Hs as <-. exact Hl.
  - cbn [scan_lines] in Hs.
    repeat match type of Hs with
    | (if ?b then _ else _) = _ => destruct b
    | match ?x with _ => _ end = _ => destruct x
    end;
    try discriminate;
    try (injection Hs as <-; exact Hl);
    try (eapply IH; [exact Hs|]; cbn; (exact Hl || discriminate)).
Qed.

Lemma scan_lines_errors lines : forall i l e,
  scan_lines i lines l = inl e -> e = IndexError \/ e = Builtin ValueError.
Proof.
  induction lines as [|line rest IH]; intros i l e Hs; [discriminate|].
  cbn [scan_lines] in Hs.
  repeat match type of Hs with
  | (if ?b then _ else _) = _ => destruct b
  | match ?x with _ => _ end = _ => destruct x
  end;
  try discriminate;
  try (injection Hs as <-; auto);
  try (eapply IH; exact Hs).
Qed.

Lemma scan_lines_unbound lines : forall i l,
  l_timestamp l = None ->
  (Forall (fun line => String.prefix "author " line = false) (header_lines lines) ->
   exists l', scan_lines i lines l = inr l' /\ l_timestamp l' = None) /\
  (forall l', scan_lines i lines l = inr l' -> l_timestamp l' = None ->
   Forall (fun line => String.prefix "author " line = false) (header_lines lines)).
Proof.
  induction lines as [|line rest IH]; intros i l Hl.
  - split; [intros _; exists l; auto|intros; constructor].
  - cbn [scan_lines header_lines].
    destruct (String.eqb_spec line "") as [->|Hne].
    { split; [intros _; eexists; split; [reflexivity|exact Hl]|intros; constructor]. }
    destruct (String.prefix "tree " line) eqn:Et.
    { assert (Ea : String.prefix "author " line = false).
      { eapply prefix_first; [|exact Et]. discriminate. }
      destruct (IH (S i)
        {| l_tree_hash := Some (str_drop 5 line);
           l_parent_hashes := l_parent_hashes l; l_author := l_author l;
           l_committer := l_committer l; l_timestamp := l_timestamp l;
           l_msg_start_index := l_msg_start_index l |} Hl) as [IH1 IH2].
      split.
      - intros [_ Hf]%Forall_cons. apply IH1, Hf.
      - intros l' Hs Hl'. constructor; [exact Ea|]. eapply IH2; eassumption. }
    destruct (String.prefix "parent " line) eqn:Ep.
    { assert (Ea : String.prefix "author " line = false).
      { eapply prefix_first; [|exact Ep]. discriminate. }
      destruct (IH (S i)
        {| l_tree_hash := l_tree_hash l;
           l_parent_hashes := l_parent_hashes l ++ [str_drop 7 line];
           l_author := l_author l;
           l_committer := l_committer l; l_timestamp := l_timestamp l;
           l_msg_start_index := l_msg_start_index l |} Hl) as [IH1 IH2].
      split.
      - intros [_ Hf]%Forall_cons. apply IH1, Hf.
      - intros l' Hs Hl'. constructor; [exact Ea|]. eapply IH2; eassumption. }
    destruct (String.prefix "author " line) eqn:Ea.
    { split.
      - intros [Hf _]%Forall_cons. congruence.
      - intros l' Hs Hl'. exfalso.
        destruct (rsplit " " 2 (str_drop 7 line)) as [|x [|t r]]; try discriminate.
        destruct (py_int t); [|discriminate].
        apply scan_lines_keeps_timestamp in Hs; [congruence|discriminate]. }
    destruct (String.prefix "committer " line) eqn:Ec.
    { destruct (rsplit_cons " " 2 (str_drop 10 line)) as (x & r & ->).
      destruct (IH (S i)
        {| l_tree_hash := l_tree_hash l;
           l_parent_hashes := l_parent_hashes l;
           l_author := l_author l;
           l_committer := Some x; l_timestamp := l_timestamp l;
           l_msg_start_index := l_msg_start_index l |} Hl) as [IH1 IH2].
      split.
      - intros [_ Hf]%Forall_cons. apply IH1, Hf.
      - intros l' Hs Hl'. constructor; [exact Ea|]. eapply IH2; eassumption. }
    destruct (IH (S i) l Hl) as [IH1 IH2].
    split.
    + intros [_ Hf]%Forall_cons. apply IH1, Hf.
    + intros l' Hs Hl'. constructor; [exact Ea|]. eapply IH2; eassumption.
Qed.

(** X12 The unbound timestamp. [Commit.from_content] raises
    [UnboundLocalError] exactly when its content is text in which no line
    before the first empty one starts with [author ]: the only assignment
    of the local [timestamp] is in that branch, and the constructor call
    reads it. *)
Theorem Commit_from_content_unbound (now : Z) (content : list byte) :
  Commit_from_content now content = inl UnboundLocalError <->
  exists text,
    decode content = Ok text /\
    Forall (fun line => String.prefix "author " line = false)
      (header_lines (split LF text)).
Proof.
  unfold Commit_from_content.
  destruct (decode content) as [text|e]; cbv zeta.
  2:{ split; [discriminate|intros (text & Hd & _); discriminate]. }
  destruct (scan_lines_unbound (split LF text) 0 initial_locals eq_refl)
    as [H1 H2].
  split.
  - intros Hr. exists text. split; [reflexivity|].
    destruct (scan_lines 0 (split LF text) initial_locals) as [e|l] eqn:Es.
    { apply scan_lines_errors in Es as [->| ->]; discriminate. }
    destruct (l_timestamp l) eqn:El; [unfold Commit_init in Hr; discriminate|].
    eapply H2; eauto.
  - intros (text' & [= <-] & Hf).
    destruct (H1 Hf) as (l' & -> & ->). reflexivity.
Qed.
End CommitProperties.

(** ** Reading a tree back *)

Lemma lower_hex_cases c :
  is_lower_hex c = true -> existsb (Ascii.eqb c) hex_digits = true.
Proof.
  destruct c as [[] [] [] [] [] [] [] []]; intros Hc;
    (reflexivity || discriminate Hc).
Qed.

Lemma hex_pairs_checked :
  forallb (fun c1 => forallb (hex_pair_ok c1) hex_digits) hex_digits = true.
Proof. vm_compute. reflexivity. Qed.

Lemma hex_pair c1 c2 :
  is_lower_hex c1 = true -> is_lower_hex c2 = true ->
  is_space c1 = false /\
  exists hi lo,
    hex_val c1 = Some hi /\ hex_val c2 = Some lo /\
    hex_byte (byte_of_Z (16 * hi + lo)) = String c1 (String c2 "").
Proof.
  intros H1%lower_hex_cases H2%lower_hex_cases.
  apply existsb_exists in H1 as (d1 & Hd1 & <-%Ascii.eqb_eq).
  apply existsb_exists in H2 as (d2 & Hd2 & <-%Ascii.eqb_eq).
  pose proof hex_pairs_checked as Hall.
  rewrite forallb_forall in Hall. specialize (Hall _ Hd1).
  rewrite forallb_forall in Hall. specialize (Hall _ Hd2).
  unfold hex_pair_ok in Hall.
  apply andb_true_iff in Hall as [Hsp Hall]. apply negb_true_iff in Hsp.
  split; [exact Hsp|].
  destruct (hex_val c1) as [hi|]; [|discriminate].
  destruct (hex_val c2) as [lo|]; [|discriminate].
  apply String.eqb_eq in Hall. eauto.
Qed.

Lemma fromhex_hex n : forall h,
  String.length h = (2 * n)%nat -> all_chars is_lower_hex h = true ->
  exists raw,
    fromhex_opt h = Some raw /\ length raw = n /\ bytes_hex raw = h.
Proof.
  induction n as [|n IH]; intros h Hlen Hh.
  - destruct h; [|discriminate]. exists []. auto.
  - destruct h as [|c1 [|c2 h]]; try (simpl in Hlen; lia).
    cbn [all_chars] in Hh.
    apply andb_true_iff in Hh as [H1 Hh]. apply andb_true_iff in Hh as [H2 Hh].
    destruct (IH h) as (raw & Hraw & Hn & Hhex); [simpl in Hlen; lia|exact Hh|].
    destruct (hex_pair c1 c2 H1 H2) as (Hsp & hi & lo & Hhi & Hlo & Hb).
    exists (byte_of_Z (16 * hi + lo) :: raw).
    cbn [fromhex_opt]. rewrite Hsp, Hhi, Hlo, Hraw.
    repeat split; [simpl; congruence|].
    cbn [bytes_hex]. rewrite Hb, Hhex. reflexivity.
Qed.

Lemma split_once_app a b :
  count_char " " a = 0%nat -> split_once " " (a +:+ String " " b) = [a; b].
Proof.
  induction a as [|c a IH].
  - intros _. reflexivity.
  - cbn [count_char]. destruct (Ascii.eqb c " ") eqn:E; [discriminate|].
    intros Ha. rewrite app_cons. cbn [split_once]. rewrite E, IH by exact Ha.
    reflexivity.
Qed.

Lemma tree_entry_ok_inv mode name obj_hash :
  tree_entry_ok (mode, name, obj_hash) = true ->
  is_str (mode +:+ " " +:+ name) = true /\
  count_char " " mode = 0%nat /\
  count_char NUL (mode +:+ " " +:+ name) = 0%nat /\
  exists raw,
    fromhex_opt obj_hash = Some raw /\ length raw = 20%nat /\
    bytes_hex raw = obj_hash.
Proof.
  unfold tree_entry_ok. rewrite !andb_true_iff.
  intros [[[[[[Hm Hn] Hsp] Hnm] Hnn] Hh] Hlen].
  apply Nat.eqb_eq in Hsp, Hnm, Hnn, Hlen.
  repeat split.
  - repeat apply is_str_app; (reflexivity || assumption).
  - exact Hsp.
  - rewrite !count_char_app, Hnm, Hnn. reflexivity.
  - apply (fromhex_hex 20); assumption.
Qed.

Lemma serialize_loop_flat es : forall acc,
  forallb tree_entry_ok es = true ->
  serialize_loop acc es = Ok (acc ++ (es ≫= entry_bytes)).
Proof.
  induction es as [|[[mode name] obj_hash] es IH]; intros acc Hes.
  - cbn. rewrite app_nil_r. reflexivity.
  - cbn [forallb] in Hes. apply andb_true_iff in Hes as [He Hes].
    destruct (tree_entry_ok_inv _ _ _ He) as (_ & _ & _ & raw & Hraw & _ & _).
    cbn [serialize_loop]. unfold fromhex. rewrite Hraw. cbn [mbind result_bind].
    rewrite IH by exact Hes. cbn [mbind list_bind entry_bytes].
    unfold entry_bytes. rewrite Hraw. cbn [default from_option]. unfold id.
    rewrite <- !app_assoc. reflexivity.
Qed.

Lemma from_content_loop_flat es : forall fuel done entries,
  forallb tree_entry_ok es = true ->
  (length es < fuel)%nat ->
  from_content_loop fuel (done ++ (es ≫= entry_bytes)) (length done) entries
  = Ok (entries ++ es).
Proof.
  induction es as [|[[mode name] obj_hash] es IH]; intros fuel done entries Hes Hfuel.
  - destruct fuel as [|fuel]; [cbn in Hfuel; lia|].
    cbn [from_content_loop mbind list_bind]. rewrite !app_nil_r.
    rewrite (proj2 (Nat.ltb_ge _ _)) by lia. reflexivity.
  - destruct fuel as [|fuel]; [cbn in Hfuel; lia|].
    cbn [forallb] in Hes. apply andb_true_iff in Hes as [He Hes].
    destruct (tree_entry_ok_inv _ _ _ He)
      as (Hstr & Hsp & Hnul & raw & Hraw & Hlen & Hhex).
    cbn [mbind list_bind]. unfold entry_bytes at 1.
    rewrite Hraw. cbn [default from_option]. unfold id.
    set (rest := es ≫= entry_bytes).
    set (mn := mode +:+ " " +:+ name).
    assert (Hhd : encode (mode +:+ " " +:+ name +:+ String NUL "")
                  = encode mn ++ [x00]).
    { unfold mn. rewrite !encode_app. rewrite <- !app_assoc. reflexivity. }
    rewrite Hhd.
    replace (((encode mn ++ [x00]) ++ raw) ++ rest)
      with (encode mn ++ x00 :: raw ++ rest)
      by (rewrite <- !app_assoc; reflexivity).
    cbn [from_content_loop].
    rewrite (proj2 (Nat.ltb_lt _ _)) by (rewrite !length_app; simpl; lia).
    rewrite drop_app_length.
    rewrite find_byte_nul by exact Hnul. cbv zeta.
    rewrite <- (encode_length mn), take_app_length, decode_encode by exact Hstr.
    cbn [mbind result_bind].
    change (split_once " " mn) with (split_once " " (mode +:+ String " " name)).
    rewrite split_once_app by exact Hsp.
    replace (drop (length done + length (encode mn) + 1)
               (done ++ encode mn ++ x00 :: raw ++ rest))
      with (raw ++ rest).
    2:{ rewrite <- Nat.add_assoc, <- drop_drop, drop_app_length.
        rewrite <- drop_drop, drop_app_length. reflexivity. }
    replace (take 20 (raw ++ rest)) with raw
      by (rewrite <- Hlen, take_app_length; reflexivity).
    rewrite Hhex.
    replace (done ++ encode mn ++ x00 :: raw ++ rest)
      with ((done ++ encode mn ++ x00 :: raw) ++ rest)
      by (rewrite <- !app_assoc; reflexivity).
    replace (length done + length (encode mn) + 21)%nat
      with (length (done ++ encode mn ++ x00 :: raw))
      by (rewrite !length_app; simpl; lia).
    rewrite IH by (exact Hes || (simpl in Hfuel; lia)).
    rewrite <- app_assoc. reflexivity.
Qed.

Lemma entry_bytes_length e :
  tree_entry_ok e = true -> (1 <= length (entry_bytes e))%nat.
Proof.
  destruct e as [[mode name] obj_hash]. intros _. unfold entry_bytes.
  rewrite !encode_app, !length_app. simpl. lia.
Qed.

Lemma flat_length es :
  forallb tree_entry_ok es = true -> (length es <= length (es ≫= entry_bytes))%nat.
Proof.
  induction es as [|e es IH]; [reflexivity|]. cbn [forallb].
  intros [He Hes]%andb_true_iff.
  change ((e :: es) ≫= entry_bytes) with (entry_bytes e ++ (es ≫= entry_bytes)).
  rewrite length_app.
  pose proof (entry_bytes_length e He). specialize (IH Hes).
  cbn [length]. lia.
Qed.

(** X13 Reading a tree back. [Tree.from_content] returns for no input,
    since it starts with the call [Tree()]. Its loop, run on the bytes
    [_serialize_entries] writes for entries as git has them, finds the
    sorted entries again, and never needs more rounds than the content has
    bytes. *)
Theorem from_content_loop_roundtrip (es : list entry) :
  forallb tree_entry_ok es = true ->
  exists content,
    _serialize_entries es = Ok content /\
    (forall fuel, (length content < fuel)%nat ->
       from_content_loop fuel content 0 [] = Ok (sorted es)) /\
    Tree_from_content content = Raise TypeError.
Proof.
  intros Hes.
  assert (Hs : forallb tree_entry_ok (sorted es) = true).
  { rewrite (forallb_permutation _ _ es); [exact Hes|apply merge_sort_Permutation]. }
  exists (sorted es ≫= entry_bytes). unfold _serialize_entries.
  rewrite serialize_loop_flat by exact Hs. repeat split.
  intros fuel Hfuel.
  apply (from_content_loop_flat (sorted es) fuel [] []); [exact Hs|].
  pose proof (flat_length _ Hs). lia.
Qed.

(** ** The commit command *)

Section CommitCommandProperties.
Context `{Zlib} `{Json}.

(** X14 [Repositry.commit] returns for no repository, message, author and
    clock. It raises [TypeError], [ValueError] or [AttributeError] while it
    builds the tree; and the call of [Commit] that follows passes no
    [parent_hashes], which is a [TypeError] whatever the other arguments
    are. *)
Theorem commit_never_returns (now : Z) (message author : string) (st : repo) :
  (commit now message author st = Raise TypeError \/
   commit now message author st = Raise ValueError \/
   commit now message author st = Raise AttributeError) /\
  (forall tree_hash ts,
     Commit_init now tree_hash None (Some author) (Some author) message ts
     = Raise TypeError).
Proof.
  split; [|reflexivity]. unfold commit.
  destruct (create_tree_from_index_raises st) as [-> | [-> | ->]]; auto.
Qed.
End CommitCommandProperties.

(** ** Framing is injective *)

Section FramingProperties.
Context `{Zlib}.

Lemma serialize_inv o data :
  serialize o = Ok data ->
  exists content,
    o = {| obj_type := obj_type o; obj_content := CBytes content |} /\
    data = zlib_compress
             (encode (obj_type o +:+ " " +:+ str_of_nat (length content)
                      +:+ String NUL "") ++ content).
Proof.
  destruct o as [ty [content|l]]; unfold serialize, frame, header;
    cbn [obj_content obj_type content_len mbind result_bind];
    [|discriminate].
  intros [= <-]. eauto.
Qed.

(** X15 Two objects whose types are text without space and NUL have the
    same serialized bytes, or the same bytes under the hash, only when
    they are the same object: the store confuses two objects only if
    SHA-1 does. *)
Theorem serialize_injective (o1 o2 : GitObject) (data : list byte) :
  is_str (obj_type o1) = true -> count_char " " (obj_type o1) = 0%nat ->
  count_char NUL (obj_type o1) = 0%nat ->
  is_str (obj_type o2) = true -> count_char " " (obj_type o2) = 0%nat ->
  count_char NUL (obj_type o2) = 0%nat ->
  (serialize o1 = Ok data -> serialize o2 = Ok data -> o1 = o2) /\
  (frame o1 = Ok data -> frame o2 = Ok data -> o1 = o2).
Proof.
  intros Hs1 Hp1 Hn1 Hs2 Hp2 Hn2.
  assert (Hser : forall d, serialize o1 = Ok d -> serialize o2 = Ok d -> o1 = o2).
  { intros d H1 H2.
    destruct (serialize_inv _ _ H1) as (c1 & E1 & D1).
    destruct (serialize_inv _ _ H2) as (c2 & E2 & D2).
    pose proof (deserialize_frame (obj_type o1) (length c1) c1 Hs1 Hp1 Hn1) as R1.
    pose proof (deserialize_frame (obj_type o2) (length c2) c2 Hs2 Hp2 Hn2) as R2.
    rewrite <- D1 in R1. rewrite <- D2 in R2. congruence. }
  split; [apply Hser|].
  intros H1 H2. apply (Hser (zlib_compress data)); unfold serialize.
  - rewrite H1. reflexivity.
  - rewrite H2. reflexivity.
Qed.
End FramingProperties.

(** ** The decimal reader satisfies the [int] interface *)

Lemma decimal_int_str n : decimal_int (str_of_Z n) = Some n.
Proof.
  unfold decimal_int, str_of_Z. rewrite NilEmpty.isi.
  destruct n as [|p|p]; [reflexivity| |].
  - pose proof (DecimalZ.of_to (Z.pos p)) as Hz. cbn [Z.to_int] in *.
    destruct (Pos.to_uint p) eqn:E;
      [destruct (DecimalPos.Unsigned.to_uint_nonnil p E)| ..]; rewrite Hz; reflexivity.
  - pose proof (DecimalZ.of_to (Z.neg p)) as Hz. cbn [Z.to_int] in *.
    destruct (Pos.to_uint p) eqn:E;
      [destruct (DecimalPos.Unsigned.to_uint_nonnil p E)| ..]; rewrite Hz; reflexivity.
Qed.

#[global] Instance decimal_py_int : PyInt := {|
  py_int := decimal_int;
  py_int_str := decimal_int_str
|}.

(** ** Closed runs of the further properties *)

Lemma store_object_write_once_witness :
  exists h st' data,
    store_object (Blob (encode "bee")) three_blobs = Ok (h, st') /\
    lookup_obj three_blobs (str_take 2 d_one) (str_drop 2 d_one) = Some data /\
    lookup_obj st' (str_take 2 d_one) (str_drop 2 d_one) = Some data /\
    obj_exists st' h = true /\
    index_file st' = index_file three_blobs.
Proof.
  destruct (store_object (Blob (encode "bee")) three_blobs) as [[h st']|] eqn:E;
    [|vm_compute in E; discriminate].
  destruct (lookup_obj three_blobs (str_take 2 d_one) (str_drop 2 d_one))
    as [data|] eqn:El; [|vm_compute in El; discriminate].
  destruct (store_object_write_once _ _ _ _ E) as (Hkeep & _ & Hnew & Hif & _).
  exists h, st', data. repeat split; auto.
Defined.

Lemma gc_only_deletes_witness :
  exists st',
    gc with_tree = Ok st' /\
    (forall b f data, lookup_obj st' b f = Some data ->
       lookup_obj with_tree b f = Some data) /\
    index_file st' = index_file with_tree.
Proof.
  destruct (gc with_tree) as [st'|] eqn:E; [|vm_compute in E; discriminate].
  destruct (gc_only_deletes _ _ E) as (Hsub & _ & _ & Hif & _).
  exists st'. auto.
Defined.

Lemma gc_idempotent_witness :
  exists st', gc with_tree = Ok st' /\ gc st' = Ok st'.
Proof.
  destruct (gc with_tree) as [st'|] eqn:E; [|vm_compute in E; discriminate].
  exists st'. split; [reflexivity|]. exact (gc_idempotent _ _ E).
Defined.

Lemma gc_without_index_deletes_all_witness :
  exists st',
    gc {| index_file := None; objects := objects three_blobs; worktree := ∅ |}
      = Ok st' /\
    all_digests st' = [] /\
    obj_exists st' d_one = false.
Proof.
  destruct (gc_without_index_deletes_all
              {| index_file := None; objects := objects three_blobs; worktree := ∅ |})
    as (st' & Hgc & Hall & Hnone & _); [left; reflexivity|].
  exists st'. repeat split; [exact Hgc|exact Hall|].
  apply Hnone. vm_compute. lia.
Defined.

Lemma add_file_stages_witness :
  exists st',
    add_file "b.txt" before_add = Ok st' /\
    load_index st'
      = index_dict [("a.txt", d_one); ("b.txt", digest "blob" (encode "bee"))] /\
    obj_exists st' (digest "blob" (encode "bee")) = true /\
    worktree st' = worktree before_add.
Proof.
  destruct (add_file_stages "b.txt" (encode "bee") before_add [("a.txt", d_one)])
    as (st' & Hadd & Hload & Hex & _ & _ & Hwt).
  - vm_compute. reflexivity.
  - vm_compute. reflexivity.
  - apply NoDup_singleton.
  - intros data Hd. vm_compute in Hd. discriminate.
  - exists st'. repeat split; assumption.
Defined.


Lemma store_stays_sound_witness :
  exists h st',
    store_object (Blob (encode "one")) (staged []) = Ok (h, st') /\
    store_sound st'.
Proof.
  destruct (store_object (Blob (encode "one")) (staged [])) as [[h st']|] eqn:E;
    [|vm_compute in E; discriminate].
  destruct (store_stays_sound (staged [])) as (Hstore & _).
  - intros b f data Hl. unfold lookup_obj in Hl. cbn [objects staged] in Hl.
    rewrite lookup_empty in Hl. discriminate.
  - exists h, st'. split; [reflexivity|]. exact (Hstore _ _ _ E).
Defined.

Lemma add_directory_stages_witness :
  exists st',
    add_directory "src" before_add = Ok st' /\
    load_index st'
      = index_dict [("a.txt", d_one); ("src/c.txt", digest "blob" (encode "sea"))] /\
    worktree st' = worktree before_add.
Proof.
  assert (Hrun : exists st', add_directory "src" before_add = Ok st').
  { destruct (add_directory "src" before_add) as [st'|] eqn:E;
      [eauto|vm_compute in E; discriminate]. }
  destruct Hrun as [st' E].
  destruct (add_directory_stages "src"
              [ {| ff_parts := ["/"; "repo"; "src"; "c.txt"];
                   ff_rel := Some "src/c.txt"; ff_content := encode "sea" |};
                {| ff_parts := ["/"; "repo"; "src"; ".git"; "x"];
                   ff_rel := Some "src/.git/x"; ff_content := encode "skipped" |} ]
              before_add st' [("a.txt", d_one)])
    as (Hload & _ & Hwt).
  - vm_compute. reflexivity.
  - vm_compute. reflexivity.
  - apply NoDup_singleton.
  - exact E.
  - exists st'. repeat split; assumption.
Defined.

Lemma tree_digest_permutation_witness :
  (t ← build_tree [entry_a; entry_b; ("100755", "run.sh", d_one)];
   hash (tree_obj t))
  = (t ← build_tree [("100755", "run.sh", d_one); entry_a; entry_b];
     hash (tree_obj t)).
Proof.
  apply (tree_digest_permutation (H := stored_zlib)).
  symmetry. apply (Permutation_cons_append [entry_a; entry_b]).
Defined.

Lemma Tree_init_not_storable_witness :
  exists t,
    Tree_init [[entry_a]] = Ok t /\
    hash (tree_obj t) = Raise TypeError /\
    store_object (tree_obj t) (staged []) = Raise TypeError.
Proof.
  destruct (Tree_init [[entry_a]]) as [t|] eqn:E; [|vm_compute in E; discriminate].
  destruct (Tree_init_not_storable (H := stored_zlib) _ _ (staged []) E)
    as (Hh & _ & Hs).
  exists t. auto.
Defined.

Lemma Commit_from_content_roundtrip_witness :
  exists c content,
    Commit_init 1700000000 (Some "aaf4c61ddcc5e8a2dabede0f3b482cd9aea9434d")
      (Some ["7c211433f02071597741e6ff5a8ea34789abbf43"])
      (Some "Ann Lee <ann@example.org>") (Some "Bo <bo@example.org>")
      ("subject" +:+ String LF (String LF "body")) None = Ok c /\
    obj_content (commit_obj c) = CBytes content /\
    Commit_from_content 1800000000 content = inr c.
Proof.
  destruct (Commit_init 1700000000 (Some "aaf4c61ddcc5e8a2dabede0f3b482cd9aea9434d")
      (Some ["7c211433f02071597741e6ff5a8ea34789abbf43"])
      (Some "Ann Lee <ann@example.org>") (Some "Bo <bo@example.org>")
      ("subject" +:+ String LF (String LF "body")) None) as [c|] eqn:E;
    [|discriminate E].
  destruct (Commit_from_content_roundtrip (H := decimal_py_int)
              1700000000 1800000000
              "aaf4c61ddcc5e8a2dabede0f3b482cd9aea9434d"
              ["7c211433f02071597741e6ff5a8ea34789abbf43"]
              "Ann Lee <ann@example.org>" "Bo <bo@example.org>"
              ("subject" +:+ String LF (String LF "body")) None c)
    as (content & Hc & Hr); try exact E; try (vm_compute; reflexivity).
  - apply Forall_singleton. vm_compute. reflexivity.
  - injection E as <-. discriminate.
  - exists c, content. auto.
Defined.

Lemma Commit_from_content_unbound_witness :
  Commit_from_content 1800000000
    (encode ("tree aaf4c61ddcc5e8a2dabede0f3b482cd9aea9434d"
             +:+ String LF (String LF "no author")))
  = inl UnboundLocalError.
Proof.
  apply (Commit_from_content_unbound (H := decimal_py_int)).
  eexists. split; [vm_compute; reflexivity|]. vm_compute. repeat constructor.
Defined.

Lemma from_content_loop_roundtrip_witness :
  exists content,
    _serialize_entries [entry_b; entry_a] = Ok content /\
    from_content_loop (S (length content)) content 0 [] = Ok [entry_a; entry_b].
Proof.
  destruct (from_content_loop_roundtrip [entry_b; entry_a])
    as (content & Hs & Hl & _); [vm_compute; reflexivity|].
  exists content. split; [exact Hs|].
  rewrite Hl by lia. vm_compute. reflexivity.
Defined.

Lemma serialize_injective_witness :
  exists d1 d2,
    serialize (Blob [x68; x69]) = Ok d1 /\
    serialize {| obj_type := "tree"; obj_content := CBytes [x68; x69] |} = Ok d2 /\
    d1 <> d2.
Proof.
  destruct (serialize (Blob [x68; x69])) as [d1|] eqn:E1; [|discriminate E1].
  destruct (serialize {| obj_type := "tree"; obj_content := CBytes [x68; x69] |})
    as [d2|] eqn:E2; [|discriminate E2].
  exists d1, d2. split; [reflexivity|]. split; [reflexivity|].
  intros Heq. rewrite <- Heq in E2.
  destruct (serialize_injective (H := stored_zlib) (Blob [x68; x69])
              {| obj_type := "tree"; obj_content := CBytes [x68; x69] |} d1)
    as [Hinj _]; try reflexivity.
  specialize (Hinj E1 E2). discriminate Hinj.
Defined.
